(** * tuya_dump_ex: the Tuya serial frame decoder, embedded and verified

    A shallow embedding of [tuya_dump_ex.py]: the checksum, the data-unit
    decoder, the packet decoder and the marker-driven frame extraction
    loop.  Python [bytes] are lists of [Byte.byte], Python integers are
    [Z], dictionaries returned by the decoders are tagged unions with one
    constructor per dictionary shape, and exceptions are explicit
    outcomes of a small error monad. *)

From Stdlib Require Import ZArith List Bool Lia.
From Stdlib Require Import Strings.Byte.
From Stdlib Require Import Sorting.Permutation.
From Stdlib Require Import Strings.Ascii.
From Stdlib Require Strings.String Strings.HexString.
Import ListNotations.
Open Scope Z_scope.

Set Implicit Arguments.

(** ** Python values and primitives *)

Module Py.

Definition bytes := list byte.

Definition byte_val (b : byte) : Z := Z.of_N (Byte.to_N b).

Definition len {A : Type} (l : list A) : Z := Z.of_nat (length l).

(** Exceptions the code can raise without catching them itself. *)
Inductive exn : Type :=
| StructError
| IndexError.

(** Outcome of running a piece of Python: a value, an exception that
    propagates, or a loop that used up the iterations granted to it. *)
Inductive run (A : Type) : Type :=
| Returned (a : A)
| Raised (e : exn)
| OutOfFuel.

Arguments Returned {A} a.
Arguments Raised {A} e.
Arguments OutOfFuel {A}.

Definition bind {A B : Type} (m : run A) (k : A -> run B) : run B :=
  match m with
  | Returned a => k a
  | Raised e => Raised e
  | OutOfFuel => OutOfFuel
  end.

(** Index normalisation of a slice bound: a negative bound counts from
    the end, and every bound is clamped into [0, len]. *)
Definition clamp_index (n i : Z) : Z :=
  if i <? 0 then Z.max 0 (i + n) else Z.min i n.

(** [l[i:j]] *)
Definition slice {A : Type} (l : list A) (i j : Z) : list A :=
  let lo := clamp_index (len l) i in
  let hi := clamp_index (len l) j in
  firstn (Z.to_nat (hi - lo)) (skipn (Z.to_nat lo) l).

(** [l[i:]] *)
Definition slice_from {A : Type} (l : list A) (i : Z) : list A :=
  skipn (Z.to_nat (clamp_index (len l) i)) l.

(** [l[:j]] *)
Definition slice_to {A : Type} (l : list A) (j : Z) : list A :=
  firstn (Z.to_nat (clamp_index (len l) j)) l.

(** [l[k]] on a bytes object: an integer, or IndexError. *)
Definition getitem (l : bytes) (k : Z) : run Z :=
  let k' := if k <? 0 then k + len l else k in
  if (0 <=? k') && (k' <? len l) then
    match nth_error l (Z.to_nat k') with
    | Some b => Returned (byte_val b)
    | None => Raised IndexError
    end
  else Raised IndexError.

(** The builtin [sum] over a bytes object: a left-to-right accumulation
    starting from 0. *)
Definition sum (data : bytes) : Z :=
  fold_left (fun acc b => acc + byte_val b) data 0.

(** [a == b] on bytes objects. *)
Fixpoint bytes_eqb (a b : bytes) : bool :=
  match a, b with
  | [], [] => true
  | x :: a', y :: b' => Byte.eqb x y && bytes_eqb a' b'
  | _, _ => false
  end.

(** [int.from_bytes(bs, 'big')] *)
Definition int_from_bytes_big (bs : bytes) : Z :=
  fold_left (fun acc b => acc * 256 + byte_val b) bs 0.

(** [struct.unpack] for the four formats the program uses.  A buffer
    whose size is not the size of the format raises [struct.error]
    ([None] here; each caller decides what that becomes). *)
Definition struct_unpack_BBH (buf : bytes) : option (Z * Z * Z) :=
  match buf with
  | [a; b; c; d] => Some (byte_val a, byte_val b, int_from_bytes_big [c; d])
  | _ => None
  end.

Definition struct_unpack_BHB (buf : bytes) : option (Z * Z * Z) :=
  match buf with
  | [a; b; c; d] => Some (byte_val a, int_from_bytes_big [b; c], byte_val d)
  | _ => None
  end.

Definition struct_unpack_I (buf : bytes) : option Z :=
  match buf with
  | [_; _; _; _] => Some (int_from_bytes_big buf)
  | _ => None
  end.

Definition struct_unpack_i (buf : bytes) : option Z :=
  match struct_unpack_I buf with
  | Some u => Some (if u <? 2 ^ 31 then u else u - 2 ^ 32)
  | None => None
  end.

(** [bs.decode('utf-8', errors='ignore')]: the text as its sequence of
    code points.  An invalid start byte is dropped alone; a lead byte
    followed by a byte that cannot continue it is dropped together with
    the continuation bytes accepted so far, and decoding resumes at the
    offending byte; a sequence cut short by the end of the input is
    dropped. *)
Definition is_continuation (c : Z) : bool := (0x80 <=? c) && (c <? 0xC0).

Fixpoint utf8_decode_ignore (bs : bytes) : list Z :=
  match bs with
  | [] => []
  | b0 :: rest =>
    let ch := byte_val b0 in
    if ch <? 0x80 then ch :: utf8_decode_ignore rest
    else if ch <? 0xC2 then utf8_decode_ignore rest
    else if ch <? 0xE0 then
      match rest with
      | [] => []
      | b1 :: rest1 =>
        let ch2 := byte_val b1 in
        if is_continuation ch2
        then (Z.land ch 0x1F * 64 + Z.land ch2 0x3F) :: utf8_decode_ignore rest1
        else utf8_decode_ignore rest
      end
    else if ch <? 0xF0 then
      match rest with
      | [] => []
      | b1 :: rest1 =>
        let ch2 := byte_val b1 in
        if negb (is_continuation ch2)
           || (if ch2 <? 0xA0 then ch =? 0xE0 else ch =? 0xED)
        then utf8_decode_ignore rest
        else
          match rest1 with
          | [] => []
          | b2 :: rest2 =>
            let ch3 := byte_val b2 in
            if is_continuation ch3
            then (Z.land ch 0x0F * 4096 + Z.land ch2 0x3F * 64 + Z.land ch3 0x3F)
                   :: utf8_decode_ignore rest2
            else utf8_decode_ignore rest1
          end
      end
    else if ch <? 0xF5 then
      match rest with
      | [] => []
      | b1 :: rest1 =>
        let ch2 := byte_val b1 in
        if negb (is_continuation ch2)
           || (if ch2 <? 0x90 then ch =? 0xF0 else ch =? 0xF4)
        then utf8_decode_ignore rest
        else
          match rest1 with
          | [] => []
          | b2 :: rest2 =>
            let ch3 := byte_val b2 in
            if is_continuation ch3 then
              match rest2 with
              | [] => []
              | b3 :: rest3 =>
                let ch4 := byte_val b3 in
                if is_continuation ch4
                then (Z.land ch 0x07 * 262144 + Z.land ch2 0x3F * 4096
                      + Z.land ch3 0x3F * 64 + Z.land ch4 0x3F)
                       :: utf8_decode_ignore rest3
                else utf8_decode_ignore rest2
              end
            else utf8_decode_ignore rest1
          end
      end
    else utf8_decode_ignore rest
  end.

End Py.

Import Py.

Notation "x <- m ;; k" := (bind m (fun x => k))
  (at level 61, m at next level, right associativity).

(** ** The decoder *)

(** [PACKET_MARKER = b'\x55\xaa'] *)
Definition PACKET_MARKER : bytes := [x55; xaa].

(** [calculate_checksum(data)] *)
Definition calculate_checksum (data : bytes) : Z :=
  let checksum := Py.sum data mod 256 in
  checksum.

(** The [{"error": ..., "raw_value": ...}] dictionaries stored as the
    decoded value of a data unit; the constructor stands for the message
    and carries the number the message is formatted with. *)
Inductive value_error : Type :=
| InvalidLengthValue (dp_length : Z)
| InvalidLengthEnum (dp_length : Z)
| InvalidLengthBitmap (dp_length : Z)
| UnknownDPType (dp_type : Z).

(** What [decoded_value] can hold when the record is appended. *)
Inductive decoded : Type :=
| VBytes (b : bytes)
| VBool (b : bool)
| VInt (n : Z)
| VStr (code_points : list Z)
| VError (error : value_error) (raw_value : bytes).

(** The dictionaries appended to [parsed_dps]. *)
Inductive data_point : Type :=
| IncompleteDataUnit (raw_data : bytes)
| FailedUnpackDataUnitHeader (raw_data : bytes)
| IncompleteDataUnitValue (dp_id dp_type dp_length : Z) (raw_data : bytes)
| DataUnit (dp_id dp_type dp_length : Z) (dp_value : decoded) (raw_value : bytes).

(** The [if dp_type == ...] chain of [parse_data_units].  The
    two [struct.unpack] calls are not inside a [try]: a [struct.error]
    there would leave the function. *)
Definition decode_dp_value (dp_type dp_length : Z) (dp_value : bytes) : run decoded :=
  if dp_type =? 0 then Returned (VBytes dp_value)
  else if dp_type =? 1 then Returned (VBool (bytes_eqb dp_value [x01]))
  else if dp_type =? 2 then
    if dp_length =? 4 then
      match struct_unpack_i dp_value with
      | Some n => Returned (VInt n)
      | None => Raised StructError
      end
    else Returned (VError (InvalidLengthValue dp_length) dp_value)
  else if dp_type =? 3 then Returned (VStr (utf8_decode_ignore dp_value))
  else if dp_type =? 4 then
    if dp_length =? 1 then Returned (VInt (int_from_bytes_big dp_value))
    else Returned (VError (InvalidLengthEnum dp_length) dp_value)
  else if dp_type =? 5 then
    if dp_length =? 4 then
      match struct_unpack_I dp_value with
      | Some n => Returned (VInt n)
      | None => Raised StructError
      end
    else Returned (VError (InvalidLengthBitmap dp_length) dp_value)
  else Returned (VError (UnknownDPType dp_type) dp_value).

(** How one pass through the body of the [while] loop ends: at a
    [break], or at the end of the body with the new cursor. *)
Inductive loop_ctl : Type :=
| Break (parsed_dps : list data_point)
| Continue (offset : Z) (parsed_dps : list data_point).

(** The body of [while offset < len(data)] in [parse_data_units]. *)
Definition parse_data_units_body (data : bytes) (offset : Z)
    (parsed_dps : list data_point) : run loop_ctl :=
  if offset + 4 >? len data then
    Returned (Break (parsed_dps ++ [IncompleteDataUnit (slice_from data offset)]))
  else
    match struct_unpack_BBH (slice data offset (offset + 4)) with
    | None =>
      Returned (Break (parsed_dps ++ [FailedUnpackDataUnitHeader (slice_from data offset)]))
    | Some (dp_id, dp_type, dp_length) =>
      let offset := offset + 4 in
      if offset + dp_length >? len data then
        Returned (Break (parsed_dps ++
          [IncompleteDataUnitValue dp_id dp_type dp_length (slice_from data (offset - 4))]))
      else
        let dp_value := slice data offset (offset + dp_length) in
        let offset := offset + dp_length in
        decoded_value <- decode_dp_value dp_type dp_length dp_value ;;
        Returned (Continue offset (parsed_dps ++
          [DataUnit dp_id dp_type dp_length decoded_value dp_value]))
    end.

(** The [while] loop, allowed at most [fuel] passes through its body. *)
Fixpoint parse_data_units_loop (fuel : nat) (data : bytes) (offset : Z)
    (parsed_dps : list data_point) : run (list data_point) :=
  if offset <? len data then
    match fuel with
    | O => OutOfFuel
    | S fuel' =>
      ctl <- parse_data_units_body data offset parsed_dps ;;
      match ctl with
      | Break parsed_dps' => Returned parsed_dps'
      | Continue offset' parsed_dps' =>
        parse_data_units_loop fuel' data offset' parsed_dps'
      end
    end
  else Returned parsed_dps.

(** [parse_data_units(data)] *)
Definition parse_data_units (data : bytes) : run (list data_point) :=
  parse_data_units_loop (length data) data 0 [].

(** The dictionaries [parse_tuya_packet] returns. *)
Inductive packet_result : Type :=
| PacketTooShort (raw_data : bytes)
| FailedUnpackHeaderFields (raw_data : bytes)
| PacketTooShortForLength (data_length : Z) (raw_data : bytes)
| ChecksumMismatch (calculated received : Z) (raw_data : bytes)
| Packet (version command data_length : Z) (data : bytes) (checksum : Z)
         (parsed_data_units : list data_point).

(** [parse_tuya_packet(packet_data)] *)
Definition parse_tuya_packet (packet_data : bytes) : run packet_result :=
  if len packet_data <? 7 then Returned (PacketTooShort packet_data)
  else
    match struct_unpack_BHB (slice packet_data 2 6) with
    | None => Returned (FailedUnpackHeaderFields packet_data)
    | Some (version, command, data_length) =>
      let expected_packet_size := 6 + data_length + 1 in
      if len packet_data <? expected_packet_size then
        Returned (PacketTooShortForLength data_length packet_data)
      else
        let data := slice packet_data 6 (6 + data_length) in
        received_checksum <- getitem packet_data (6 + data_length) ;;
        let calculated_checksum :=
          calculate_checksum (slice_to packet_data (6 + data_length)) in
        if negb (calculated_checksum =? received_checksum) then
          Returned (ChecksumMismatch calculated_checksum received_checksum packet_data)
        else
          parsed_data <- parse_data_units data ;;
          Returned (Packet version command data_length data received_checksum parsed_data)
    end.

(** ** The frame extraction loop of [read_and_hexdump_packets] *)

Fixpoint starts_with (sub l : bytes) : bool :=
  match sub, l with
  | [], _ => true
  | s :: sub', x :: l' => Byte.eqb s x && starts_with sub' l'
  | _ :: _, [] => false
  end.

Fixpoint find_from (sub l : bytes) (i : Z) : Z :=
  if starts_with sub l then i
  else match l with
       | [] => -1
       | _ :: l' => find_from sub l' (i + 1)
       end.

(** [buffer.find(sub)]: the lowest index where [sub] occurs, or -1. *)
Definition find (buffer sub : bytes) : Z := find_from sub buffer 0.

(** [sub in buffer] *)
Fixpoint contains (sub buffer : bytes) : bool :=
  starts_with sub buffer
  || match buffer with
     | [] => false
     | _ :: buffer' => contains sub buffer'
     end.

(** What the loop prints, with each hexdump kept as the bytes it dumps. *)
Inductive event : Type :=
| UnexpectedData (orphan : bytes)
| RawPacket (packet_count : Z) (frame : bytes)
| ParsedPacket (packet_count : Z) (parsed_packet : packet_result).

Record reader : Type := mkReader {
  buffer : bytes;
  packet_count : Z;
  printed : list event
}.

(** The body of [while PACKET_MARKER in buffer]. *)
Definition extract_body (st : reader) : run reader :=
  let buffer0 := buffer st in
  let marker_index := find buffer0 PACKET_MARKER in
  let '(printed1, buffer1) :=
    if marker_index >? 0
    then (printed st ++ [UnexpectedData (slice_to buffer0 marker_index)],
          slice_from buffer0 marker_index)
    else (printed st, buffer0) in
  let buffer2 := slice_from buffer1 (len PACKET_MARKER) in
  let next_marker_index := find buffer2 PACKET_MARKER in
  let '(packet_data, buffer3) :=
    if next_marker_index =? -1
    then (buffer2, [])
    else (slice_to buffer2 next_marker_index, slice_from buffer2 next_marker_index) in
  let packet_count' := packet_count st + 1 in
  let printed2 := printed1 ++ [RawPacket packet_count' (PACKET_MARKER ++ packet_data)] in
  parsed_packet <- parse_tuya_packet (PACKET_MARKER ++ packet_data) ;;
  Returned (mkReader buffer3 packet_count'
              (printed2 ++ [ParsedPacket packet_count' parsed_packet])).

(** The inner [while], allowed at most [fuel] passes. *)
Fixpoint extract_loop (fuel : nat) (st : reader) : run reader :=
  if contains PACKET_MARKER (buffer st) then
    match fuel with
    | O => OutOfFuel
    | S fuel' => st' <- extract_body st ;; extract_loop fuel' st'
    end
  else Returned st.

(** One pass of [while True] for the chunk [ser.read(1024)] returned. *)
Definition on_chunk (st : reader) (chunk : bytes) : run reader :=
  match chunk with
  | [] => Returned st
  | _ :: _ =>
    let buffer' := buffer st ++ chunk in
    extract_loop (length buffer') (mkReader buffer' (packet_count st) (printed st))
  end.

(** [read_and_hexdump_packets] on the chunks the serial port delivers,
    from [buffer = b''] and [packet_count = 0]. *)
Fixpoint read_loop (chunks : list bytes) (st : reader) : run reader :=
  match chunks with
  | [] => Returned st
  | chunk :: chunks' => st' <- on_chunk st chunk ;; read_loop chunks' st'
  end.

Definition read_and_hexdump_packets (chunks : list bytes) : run reader :=
  read_loop chunks (mkReader [] 0 []).

(** ** Vocabulary of the statements *)

(** The arithmetic sum of the bytes of a sequence, as the specification
    words it (the code accumulates from the left, [Py.sum]). *)
Fixpoint arithmetic_sum (b : bytes) : Z :=
  match b with
  | [] => 0
  | x :: b' => byte_val x + arithmetic_sum b'
  end.

(** A pass seen from a payload that has [origin] more bytes in front
    and [found] more records already. *)
Definition shift_ctl (origin : Z) (found : list data_point) (ctl : loop_ctl) : loop_ctl :=
  match ctl with
  | Break parsed_dps => Break (found ++ parsed_dps)
  | Continue offset parsed_dps => Continue (origin + offset) (found ++ parsed_dps)
  end.

(** A function applied to what a run returns. *)
Definition run_map {A B : Type} (f : A -> B) (m : run A) : run B :=
  x <- m ;; Returned (f x).

(** The record of a decoded unit, as opposed to an error stop. *)
Definition is_data_unit (r : data_point) : bool :=
  match r with
  | DataUnit _ _ _ _ _ => true
  | _ => false
  end.

(** The two records appended when the payload ends inside a unit. *)
Definition is_truncation (r : data_point) : bool :=
  match r with
  | IncompleteDataUnit _ | IncompleteDataUnitValue _ _ _ _ => true
  | _ => false
  end.

(** Payload bytes a record accounts for: header and value of a decoded
    unit, nothing for an error record. *)
Definition unit_size (r : data_point) : Z :=
  match r with
  | DataUnit _ _ _ _ raw_value => 4 + len raw_value
  | _ => 0
  end.

Definition units_size (rs : list data_point) : Z :=
  fold_right (fun r n => unit_size r + n) 0 rs.

(** The checksum the specification's wire format describes: the sum of
    the VERSION through PAYLOAD bytes, offsets 2 to [6 + data_length],
    modulo 256. *)
Definition version_to_payload_checksum (packet_data : bytes) (data_length : Z) : Z :=
  arithmetic_sum (slice packet_data 2 (6 + data_length)) mod 256.

(** The checksum over every byte before the checksum byte, the marker
    included. *)
Definition marker_to_payload_checksum (packet_data : bytes) (data_length : Z) : Z :=
  arithmetic_sum (slice_to packet_data (6 + data_length)) mod 256.

(** Building a frame.

    The program only decodes.  A frame as a sender lays it out: marker,
    version, command (big-endian), declared length, payload, and one
    checksum byte.  The checksum is computed here with
    [arithmetic_sum], not with the decoder's [calculate_checksum]. *)

Definition byte_of_Z (z : Z) : byte :=
  match Byte.of_N (Z.to_N (z mod 256)) with
  | Some b => b
  | None => x00
  end.

(** The VERSION, COMMAND and LEN bytes of a frame. *)
Definition header_fields (version command : Z) (payload : bytes) : bytes :=
  [byte_of_Z version; byte_of_Z (command / 256); byte_of_Z (command mod 256);
   byte_of_Z (len payload)].

Definition frame_with_checksum (version command : Z) (payload : bytes)
    (checksum : Z) : bytes :=
  PACKET_MARKER ++ header_fields version command payload ++ payload
    ++ [byte_of_Z checksum].

(** The checksum as the specification's wire format states it: the sum
    of the VERSION through PAYLOAD bytes modulo 256, the marker left
    out; and the frame that carries it. *)
Definition wire_format_checksum (version command : Z) (payload : bytes) : Z :=
  arithmetic_sum (header_fields version command payload ++ payload) mod 256.

Definition wire_format_frame (version command : Z) (payload : bytes) : bytes :=
  frame_with_checksum version command payload
    (wire_format_checksum version command payload).

(** The checksum over every byte that precedes it in the frame, the
    two marker bytes included; and the frame that carries it. *)
Definition marker_inclusive_checksum (version command : Z) (payload : bytes) : Z :=
  arithmetic_sum (PACKET_MARKER ++ header_fields version command payload ++ payload)
    mod 256.

Definition build_frame (version command : Z) (payload : bytes) : bytes :=
  frame_with_checksum version command payload
    (marker_inclusive_checksum version command payload).

(** [l] with the byte at index [k] replaced by [x]. *)
Fixpoint replace_at (l : bytes) (k : nat) (x : byte) : bytes :=
  match l, k with
  | [], _ => []
  | _ :: l', O => x :: l'
  | y :: l', S k' => y :: replace_at l' k' x
  end.

(** The diagnostic printed for the bytes before a marker, when there
    are any. *)
Definition orphan_event (orphan : bytes) : list event :=
  if len orphan >? 0 then [UnexpectedData orphan] else [].

(** A candidate frame: the bytes between a marker and the next one, and
    what the decoder returned for the marker followed by them. *)
Definition frame : Type := (bytes * packet_result)%type.

Definition frame_bytes (f : frame) : bytes := PACKET_MARKER ++ fst f.

(** What the loop prints for a run of frames, numbered after [count]. *)
Fixpoint frame_events (count : Z) (frames : list frame) : list event :=
  match frames with
  | [] => []
  | f :: frames' =>
    RawPacket (count + 1) (frame_bytes f)
      :: ParsedPacket (count + 1) (snd f)
      :: frame_events (count + 1) frames'
  end.

(** The body of a candidate frame holds no marker, the decoder was
    given the marker followed by that body, and the payload of a
    decoded Packet is a slice of the body. *)
Definition frame_ok (f : frame) : Prop :=
  contains PACKET_MARKER (fst f) = false
  /\ parse_tuya_packet (frame_bytes f) = Returned (snd f)
  /\ forall version command data_length data checksum units,
       snd f = Packet version command data_length data checksum units ->
       data = slice (fst f) 4 (4 + data_length).

(** The bytes an event shows: the orphan bytes or the frame. *)
Definition event_bytes (e : event) : bytes :=
  match e with
  | UnexpectedData orphan => orphan
  | RawPacket _ frame_data => frame_data
  | ParsedPacket _ _ => []
  end.

Definition printed_bytes (events : list event) : bytes :=
  flat_map event_bytes events.

(** ** The hex dump *)

Module Text.

(** Python text, here always ASCII: the sequence of its characters. *)
Definition str := list ascii.

(** [format(n, '0<width>x')]: lowercase hexadecimal digits, filled with
    zeros on the left up to [width] characters, after the sign when
    there is one. *)
Definition format_0x (width : nat) (n : Z) : str :=
  match n with
  | Z0 => repeat "0"%char (width - 1) ++ ["0"%char]
  | Zpos p =>
    let digits := String.list_ascii_of_string (HexString.Raw.of_pos p String.EmptyString) in
    repeat "0"%char (width - length digits) ++ digits
  | Zneg p =>
    let digits := String.list_ascii_of_string (HexString.Raw.of_pos p String.EmptyString) in
    "-"%char :: repeat "0"%char (width - 1 - length digits) ++ digits
  end.

(** [sep.join(parts)] *)
Definition join (sep : str) (parts : list str) : str :=
  match parts with
  | [] => []
  | part :: parts' => part ++ flat_map (fun q => sep ++ q) parts'
  end.

(** [s.ljust(width)] *)
Definition ljust (width : nat) (s : str) : str :=
  s ++ repeat " "%char (width - length s).

(** [chr(byte) if 32 <= byte <= 126 else '.'] *)
Definition chr_or_dot (byte : Byte.byte) : ascii :=
  if (32 <=? byte_val byte) && (byte_val byte <=? 126)
  then ascii_of_byte byte
  else "."%char.

End Text.

Import Text.

(** The line [hexdump_packet] prints for the 16 bytes from [offset]. *)
Definition hexdump_line (packet_data : bytes) (offset : Z) : str :=
  let line := slice packet_data offset (offset + 16) in
  let hex_line := join [" "%char] (map (fun byte => format_0x 2 (byte_val byte)) line) in
  let ascii_line := join [] (map (fun byte => [chr_or_dot byte]) line) in
  format_0x 8 offset ++ [":"%char; " "%char] ++ ljust 48 hex_line
    ++ [" "%char; "|"%char] ++ ascii_line ++ ["|"%char].

(** The [while] loop of [hexdump_packet], allowed at most [fuel]
    passes; [printed_lines] are the lines printed so far. *)
Fixpoint hexdump_packet_loop (fuel : nat) (packet_data : bytes) (offset : Z)
    (printed_lines : list str) : run (list str) :=
  if offset <? len packet_data then
    match fuel with
    | O => OutOfFuel
    | S fuel' =>
      hexdump_packet_loop fuel' packet_data (offset + 16)
        (printed_lines ++ [hexdump_line packet_data offset])
    end
  else Returned printed_lines.

(** [hexdump_packet(packet_data)]: the lines it prints. *)
Definition hexdump_packet (packet_data : bytes) : run (list str) :=
  hexdump_packet_loop (length packet_data) packet_data 0 [].

(** ** Vocabulary of the further properties *)

(** The payload bytes a record stands for: header and raw value of a
    decoded unit, the bytes kept in [raw_data] of an error stop. *)
Definition wire_bytes (r : data_point) : bytes :=
  match r with
  | DataUnit dp_id dp_type dp_length _ raw_value =>
    [byte_of_Z dp_id; byte_of_Z dp_type;
     byte_of_Z (dp_length / 256); byte_of_Z (dp_length mod 256)] ++ raw_value
  | IncompleteDataUnit raw_data
  | FailedUnpackDataUnitHeader raw_data
  | IncompleteDataUnitValue _ _ _ raw_data => raw_data
  end.

(** What holds of every record [parse_data_units] appends. *)
Definition record_ok (r : data_point) : Prop :=
  match r with
  | DataUnit dp_id dp_type dp_length dp_value raw_value =>
    0 <= dp_id <= 255 /\ 0 <= dp_type <= 255 /\ 0 <= dp_length <= 65535
    /\ len raw_value = dp_length
    /\ decode_dp_value dp_type dp_length raw_value = Returned dp_value
  | IncompleteDataUnit raw_data => 0 < len raw_data < 4
  | IncompleteDataUnitValue dp_id dp_type dp_length raw_data =>
    4 <= len raw_data < 4 + dp_length
    /\ struct_unpack_BBH (slice raw_data 0 4) = Some (dp_id, dp_type, dp_length)
  | FailedUnpackDataUnitHeader _ => False
  end.

(** A data unit as a sender lays it out: identifier, type tag, the
    length of the value as two big-endian bytes, the value. *)
Definition encode_unit (u : byte * byte * bytes) : bytes :=
  let '(dp_id, dp_type, value) := u in
  [dp_id; dp_type; byte_of_Z (len value / 256); byte_of_Z (len value mod 256)] ++ value.

(** The record a complete unit is decoded to. *)
Definition decodes_to (u : byte * byte * bytes) (r : data_point) : Prop :=
  let '(dp_id, dp_type, value) := u in
  exists dv,
    decode_dp_value (byte_val dp_type) (len value) value = Returned dv
    /\ r = DataUnit (byte_val dp_id) (byte_val dp_type) (len value) dv value.

(** The number of positions of [l] at which [sub] occurs. *)
Fixpoint count_occurrences (sub l : bytes) : nat :=
  (if starts_with sub l then 1 else 0)
  + match l with
    | [] => 0
    | _ :: l' => count_occurrences sub l'
    end.

(** What the loop prints over a whole run, read as rounds: each round
    is the diagnostic for the marker-free bytes before a marker, when
    there are any, then the raw dump of the next numbered frame, then
    what the decoder returned for that very frame.  [rounds n events n']
    numbers the frames of [events] from [n + 1] to [n']. *)
Inductive rounds : Z -> list event -> Z -> Prop :=
| rounds_done (n : Z) : rounds n [] n
| rounds_frame (n n' : Z) (orphan body : bytes) (r : packet_result)
    (events : list event) :
    contains PACKET_MARKER orphan = false ->
    frame_ok (body, r) ->
    rounds (n + 1) events n' ->
    rounds n (orphan_event orphan
                ++ RawPacket (n + 1) (PACKET_MARKER ++ body)
                :: ParsedPacket (n + 1) r :: events) n'.

(** Reading a dump back.  The value of a hexadecimal digit. *)
Definition hex_value (c : ascii) : option Z :=
  let n := Z.of_N (N_of_ascii c) in
  if (48 <=? n) && (n <=? 57) then Some (n - 48)
  else if (97 <=? n) && (n <=? 102) then Some (n - 87)
  else None.

(** What follows the first colon and the space after it. *)
Fixpoint after_colon (s : str) : str :=
  match s with
  | [] => []
  | c :: s' => if Ascii.eqb c ":"%char then tl s' else after_colon s'
  end.

(** The bytes written as two-digit groups separated by single spaces, up
    to the first place where no such group follows. *)
Fixpoint read_hex_pairs (s : str) : bytes :=
  match s with
  | [] => []
  | h1 :: s1 =>
    match s1 with
    | [] => []
    | h2 :: s2 =>
      match hex_value h1, hex_value h2 with
      | Some a, Some b =>
        byte_of_Z (16 * a + b)
          :: match s2 with
             | [] => []
             | sp :: s3 => if Ascii.eqb sp " "%char then read_hex_pairs s3 else []
             end
      | _, _ => []
      end
    end
  end.

(** The bytes a dump line shows in its hex column. *)
Definition read_line (line : str) : bytes := read_hex_pairs (after_colon line).

(** The text a dump line shows between its bars: what follows the 48
    characters of the hex column and the two of [" |"], without the
    closing bar. *)
Definition ascii_column (line : str) : str :=
  removelast (skipn 50 (after_colon line)).

(** A character a terminal prints as itself. *)
Definition printable (c : ascii) : bool :=
  let n := Z.of_N (N_of_ascii c) in (32 <=? n) && (n <=? 126).

(** How a byte is to appear between the bars: as the character whose
    code is the byte when the byte is in 32..126, as a dot otherwise. *)
Definition shown_as (b : byte) (c : ascii) : Prop :=
  if (32 <=? byte_val b) && (byte_val b <=? 126)
  then Z.of_N (N_of_ascii c) = byte_val b
  else c = "."%char.

(** A character that can stand in the offset field of a dump line: it
    prints as itself and is not the colon that ends the field. *)
Definition offset_char (c : ascii) : bool :=
  printable c && negb (Ascii.eqb c ":"%char).

(** A message to send: version, command and payload. *)
Definition message : Type := (Z * Z * bytes)%type.

(** Its frame, with the checksum that covers the marker. *)
Definition frame_of (m : message) : bytes :=
  let '(version, command, payload) := m in build_frame version command payload.

(** What follows the marker in the frame of a message. *)
Definition body_of (m : message) : bytes := skipn 2 (frame_of m).

(** A message whose fields fit the header and whose frame holds no
    marker after its own. *)
Definition sendable (m : message) : Prop :=
  let '(version, command, payload) := m in
  0 <= version <= 255 /\ 0 <= command <= 65535 /\ len payload <= 255
  /\ contains PACKET_MARKER (body_of m) = false.

(** The Packet a message is received as. *)
Definition received_as (m : message) (r : packet_result) : Prop :=
  let '(version, command, payload) := m in
  exists checksum units,
    parse_data_units payload = Returned units
    /\ r = Packet version command (len payload) payload checksum units.

(** ** Sanity checks on concrete inputs *)

Example checksum_marker : calculate_checksum PACKET_MARKER = 255.
Proof. reflexivity. Qed.

(** The payload [01 02 00 04 00 00 00 7B] is one Integer32 unit of value 123. *)
Example parse_data_units_int32 :
  parse_data_units [x01; x02; x00; x04; x00; x00; x00; x7b]
  = Returned [DataUnit 1 2 4 (VInt 123) [x00; x00; x00; x7b]].
Proof. reflexivity. Qed.

Example parse_data_units_empty : parse_data_units [] = Returned [].
Proof. reflexivity. Qed.

(** Signed and unsigned readings of the same four bytes, an enum byte, a
    boolean, and a string with a stray continuation byte dropped. *)
Example parse_data_units_typed :
  parse_data_units
    ([x01; x02; x00; x04; xff; xff; xff; xfe] ++ [x02; x05; x00; x04; xff; xff; xff; xfe]
       ++ [x03; x04; x00; x01; x07] ++ [x04; x01; x00; x01; x01]
       ++ [x05; x03; x00; x03; x68; x80; x69])
  = Returned
      [DataUnit 1 2 4 (VInt (-2)) [xff; xff; xff; xfe];
       DataUnit 2 5 4 (VInt 4294967294) [xff; xff; xff; xfe];
       DataUnit 3 4 1 (VInt 7) [x07];
       DataUnit 4 1 1 (VBool true) [x01];
       DataUnit 5 3 3 (VStr [104; 105]) [x68; x80; x69]].
Proof. reflexivity. Qed.

(** A header that declares more value bytes than remain. *)
Example parse_data_units_cut_value :
  parse_data_units [x01; x00; x00; x00; x02; x02; x00; x04; x00]
  = Returned [DataUnit 1 0 0 (VBytes []) [];
              IncompleteDataUnitValue 2 2 4 [x02; x02; x00; x04; x00]].
Proof. reflexivity. Qed.

(** The stream [55 AA 01 00 02 05 DE AD AB 55 AA 01 00 02 05 BE EF CD]:
    two decode attempts, each on its own frame, each too short for the
    5 payload bytes it declares. *)
Example two_frames_back_to_back :
  read_and_hexdump_packets
    [[x55; xaa; x01; x00; x02; x05; xde; xad; xab;
      x55; xaa; x01; x00; x02; x05; xbe; xef; xcd]]
  = Returned (mkReader [] 2
      [RawPacket 1 [x55; xaa; x01; x00; x02; x05; xde; xad; xab];
       ParsedPacket 1
         (PacketTooShortForLength 5 [x55; xaa; x01; x00; x02; x05; xde; xad; xab]);
       RawPacket 2 [x55; xaa; x01; x00; x02; x05; xbe; xef; xcd];
       ParsedPacket 2
         (PacketTooShortForLength 5 [x55; xaa; x01; x00; x02; x05; xbe; xef; xcd])]).
Proof. reflexivity. Qed.

Module DumpExample.
Import String.

(** The dump of 17 bytes: one full line and one line with a single byte. *)
Example hexdump_packet_two_lines :
  option_map (map String.string_of_list_ascii)
    match hexdump_packet
            [x55; xaa; x03; x00; x07; x01; x2b; x35; x48; x69; x7e; x7f; x00; xff; x20; x7c;
             x41]
    with Returned lines => Some lines | _ => None end
  = Some
      ["00000000: 55 aa 03 00 07 01 2b 35 48 69 7e 7f 00 ff 20 7c  |U.....+5Hi~... ||"%string;
       "00000010: 41                                               |A|"%string].
Proof. reflexivity. Qed.

End DumpExample.

(** A marker split across two reads is found once both halves are
    buffered; the bytes before it are the orphan bytes. *)
Example marker_across_chunks :
  read_and_hexdump_packets [[x09; x55]; []; [xaa; x00; x00; x00; x00; xff]]
  = Returned (mkReader [] 1
      [UnexpectedData [x09];
       RawPacket 1 [x55; xaa; x00; x00; x00; x00; xff];
       ParsedPacket 1 (Packet 0 0 0 [] 255 [])]).
Proof. reflexivity. Qed.

(** ** Slices, indexing and sums *)

Section SliceFacts.

Context {A : Type}.
Implicit Types l pre post : list A.

Lemma len_nonneg l : 0 <= len l.
Proof. unfold len; lia. Qed.

Lemma len_app l1 l2 : len (l1 ++ l2) = len l1 + len l2.
Proof. unfold len; rewrite length_app; lia. Qed.

Lemma len_cons (x : A) l : len (x :: l) = 1 + len l.
Proof. unfold len; cbn [length]; lia. Qed.

Lemma len_nil : len (@nil A) = 0.
Proof. reflexivity. Qed.

Lemma to_nat_len l : Z.to_nat (len l) = length l.
Proof. unfold len; lia. Qed.

Lemma clamp_index_nonneg n i : 0 <= i -> clamp_index n i = Z.min i n.
Proof. intros Hi; unfold clamp_index. destruct (Z.ltb_spec i 0); lia. Qed.

Lemma slice_nonneg l i j :
  0 <= i -> 0 <= j ->
  slice l i j
  = firstn (Z.to_nat (Z.min j (len l) - Z.min i (len l)))
           (skipn (Z.to_nat (Z.min i (len l))) l).
Proof. intros Hi Hj; unfold slice. now rewrite !clamp_index_nonneg. Qed.

Lemma len_slice l i j :
  0 <= i -> i <= j -> j <= len l -> len (slice l i j) = j - i.
Proof.
  intros Hi Hij Hj. rewrite slice_nonneg by lia.
  unfold len in *. rewrite length_firstn, length_skipn. lia.
Qed.

Lemma slice_from_nonneg l i :
  0 <= i -> i <= len l -> slice_from l i = skipn (Z.to_nat i) l.
Proof.
  intros Hi Hl; unfold slice_from. rewrite clamp_index_nonneg by lia.
  now rewrite Z.min_l by lia.
Qed.

Lemma slice_to_nonneg l j :
  0 <= j -> j <= len l -> slice_to l j = firstn (Z.to_nat j) l.
Proof.
  intros Hj Hl; unfold slice_to. rewrite clamp_index_nonneg by lia.
  now rewrite Z.min_l by lia.
Qed.

(** The slice that starts where [pre] ends and is as long as [mid]. *)
Lemma slice_middle pre mid post :
  slice (pre ++ mid ++ post) (len pre) (len pre + len mid) = mid.
Proof.
  pose proof (len_nonneg pre); pose proof (len_nonneg mid);
    pose proof (len_nonneg post).
  rewrite slice_nonneg by lia. rewrite !len_app.
  rewrite !Z.min_l by lia.
  replace (Z.to_nat (len pre)) with (length pre + 0)%nat by (unfold len; lia).
  rewrite skipn_app, skipn_all2 by lia. cbn [app].
  replace (length pre + 0 - length pre)%nat with 0%nat by lia. cbn [skipn].
  replace (Z.to_nat (len pre + len mid - len pre)) with (length mid + 0)%nat
    by (unfold len; lia).
  rewrite firstn_app_2. cbn [firstn]. apply app_nil_r.
Qed.

Lemma slice_middle_eq pre mid post l i j :
  l = pre ++ mid ++ post -> i = len pre -> j = len pre + len mid ->
  slice l i j = mid.
Proof. intros -> -> ->. apply slice_middle. Qed.

Lemma slice_from_app pre post : slice_from (pre ++ post) (len pre) = post.
Proof.
  pose proof (len_nonneg pre); pose proof (len_nonneg post).
  rewrite slice_from_nonneg by (rewrite ?len_app; lia).
  rewrite to_nat_len. rewrite skipn_app, skipn_all, Nat.sub_diag. reflexivity.
Qed.

Lemma slice_to_app pre post : slice_to (pre ++ post) (len pre) = pre.
Proof.
  pose proof (len_nonneg pre); pose proof (len_nonneg post).
  rewrite slice_to_nonneg by (rewrite ?len_app; lia).
  rewrite to_nat_len. rewrite firstn_app, firstn_all, Nat.sub_diag.
  cbn [firstn]. apply app_nil_r.
Qed.

(** Any position inside a list splits it there. *)
Lemma split_at l i :
  0 <= i -> i <= len l ->
  exists pre post, l = pre ++ post /\ len pre = i.
Proof.
  intros Hi Hl. exists (firstn (Z.to_nat i) l), (skipn (Z.to_nat i) l). split.
  - symmetry; apply firstn_skipn.
  - unfold len in *. rewrite length_firstn. lia.
Qed.

End SliceFacts.

(** ** The checksum *)

Lemma byte_val_range (b : byte) : 0 <= byte_val b <= 255.
Proof.
  unfold byte_val. pose proof (Byte.to_N_bounded b). lia.
Qed.

Lemma byte_val_inj (a b : byte) : byte_val a = byte_val b -> a = b.
Proof.
  unfold byte_val; intros H. apply N2Z.inj in H.
  pose proof (Byte.of_to_N a) as Ha. rewrite H, Byte.of_to_N in Ha.
  congruence.
Qed.

Lemma sum_fold (data : bytes) (acc : Z) :
  fold_left (fun acc b => acc + byte_val b) data acc = acc + arithmetic_sum data.
Proof.
  revert acc; induction data as [|x data IH]; intros acc; cbn [fold_left arithmetic_sum].
  - lia.
  - rewrite IH. lia.
Qed.

Lemma sum_arithmetic (data : bytes) : Py.sum data = arithmetic_sum data.
Proof. unfold Py.sum. rewrite sum_fold. lia. Qed.

Lemma arithmetic_sum_app (a b : bytes) :
  arithmetic_sum (a ++ b) = arithmetic_sum a + arithmetic_sum b.
Proof. induction a as [|x a IH]; cbn [app arithmetic_sum]; lia. Qed.

Lemma arithmetic_sum_nonneg (b : bytes) : 0 <= arithmetic_sum b.
Proof.
  induction b as [|x b IH]; cbn [arithmetic_sum]; [lia|].
  pose proof (byte_val_range x). lia.
Qed.

Lemma calculate_checksum_eq (b : bytes) :
  calculate_checksum b = arithmetic_sum b mod 256.
Proof. unfold calculate_checksum. now rewrite sum_arithmetic. Qed.

(** C6: for every byte sequence, the empty one included,
    [calculate_checksum] is the arithmetic sum of the bytes modulo 256,
    which is the low 8 bits of that sum, and lies in [0, 255].  The
    function is total and pure: it is a plain function into the
    integers, outside the [run] monad. *)
Theorem calculate_checksum_spec (b : bytes) :
  calculate_checksum b = arithmetic_sum b mod 256
  /\ calculate_checksum b = Z.land (arithmetic_sum b) 255
  /\ 0 <= calculate_checksum b <= 255
  /\ calculate_checksum [] = 0.
Proof.
  rewrite calculate_checksum_eq. repeat split.
  - change 255 with (Z.ones 8). rewrite Z.land_ones by lia. reflexivity.
  - apply Z.mod_pos_bound; lia.
  - pose proof (Z.mod_pos_bound (arithmetic_sum b) 256); lia.
Qed.

(** ** The data-unit decoder, one pass at a time *)

Lemma length4_inv {A : Type} (l : list A) :
  length l = 4%nat -> exists a b c d, l = [a; b; c; d].
Proof.
  destruct l as [|a [|b [|c [|d [|e l]]]]]; cbn; intros H; try discriminate.
  now exists a, b, c, d.
Qed.

Lemma struct_unpack_I_total (buf : bytes) :
  len buf = 4 -> struct_unpack_I buf = Some (int_from_bytes_big buf).
Proof.
  intros H. destruct (@length4_inv _ buf) as (a & b & c & d & ->).
  - unfold len in H; lia.
  - reflexivity.
Qed.

(** With a value of the declared length, decoding never raises. *)
Lemma decode_dp_value_total (dp_type : Z) (dp_value : bytes) :
  exists v, decode_dp_value dp_type (len dp_value) dp_value = Returned v.
Proof.
  unfold decode_dp_value.
  repeat match goal with
  | |- context [if ?c then _ else _] => destruct c eqn:?
  end; try (eexists; reflexivity).
  - apply Z.eqb_eq in Heqb2. unfold struct_unpack_i.
    rewrite struct_unpack_I_total by assumption. eexists; reflexivity.
  - apply Z.eqb_eq in Heqb5.
    rewrite struct_unpack_I_total by assumption. eexists; reflexivity.
Qed.

Lemma int_from_bytes_big_2 (c d : byte) :
  int_from_bytes_big [c; d] = byte_val c * 256 + byte_val d.
Proof. unfold int_from_bytes_big; cbn [fold_left]. lia. Qed.

Lemma int_from_bytes_big_2_range (c d : byte) :
  0 <= int_from_bytes_big [c; d] <= 65535.
Proof.
  rewrite int_from_bytes_big_2.
  pose proof (byte_val_range c); pose proof (byte_val_range d). lia.
Qed.

(** The pass over a complete unit lying right after [pre]: the record is
    appended and the cursor moves past the value. *)
Lemma body_complete (pre : bytes) (a b c d : byte) (value rest : bytes)
    (parsed_dps : list data_point) :
  len value = int_from_bytes_big [c; d] ->
  parse_data_units_body (pre ++ a :: b :: c :: d :: value ++ rest) (len pre) parsed_dps
  = (dv <- decode_dp_value (byte_val b) (len value) value ;;
     Returned (Continue (len pre + 4 + len value)
       (parsed_dps ++ [DataUnit (byte_val a) (byte_val b) (len value) dv value]))).
Proof.
  intros HL. unfold parse_data_units_body.
  pose proof (len_nonneg pre); pose proof (len_nonneg value);
    pose proof (len_nonneg rest).
  assert (Hlen : len (pre ++ a :: b :: c :: d :: value ++ rest)
                 = len pre + 4 + len value + len rest)
    by (rewrite len_app, !len_cons, len_app; lia).
  rewrite Hlen.
  destruct (Z.gtb_spec (len pre + 4) (len pre + 4 + len value + len rest)); [lia|].
  rewrite (slice_middle_eq pre [a; b; c; d] (value ++ rest)) by reflexivity.
  cbn [struct_unpack_BBH]. rewrite <- HL.
  destruct (Z.gtb_spec (len pre + 4 + len value)
                       (len pre + 4 + len value + len rest)); [lia|].
  rewrite (slice_middle_eq (pre ++ [a; b; c; d]) value rest).
  - reflexivity.
  - now rewrite <- app_assoc.
  - rewrite len_app. reflexivity.
  - rewrite len_app. reflexivity.
Qed.

(** *** Moving the cursor origin

    The loop reads [data] only from the cursor on, so a pass over
    [pre ++ rest] at cursor [len pre + offset] is the pass over [rest] at
    cursor [offset], with the records found so far carried along. *)

Lemma slice_shift {A : Type} (pre l : list A) (i j : Z) :
  0 <= i -> 0 <= j -> slice (pre ++ l) (len pre + i) (len pre + j) = slice l i j.
Proof.
  intros Hi Hj. pose proof (len_nonneg pre); pose proof (len_nonneg l).
  rewrite !slice_nonneg by lia. rewrite len_app.
  rewrite !Z.add_min_distr_l.
  replace (len pre + Z.min j (len l) - (len pre + Z.min i (len l)))
    with (Z.min j (len l) - Z.min i (len l)) by lia.
  f_equal. rewrite skipn_app, skipn_all2 by (unfold len; lia). cbn [app].
  f_equal. unfold len; lia.
Qed.

Lemma slice_from_shift {A : Type} (pre l : list A) (i : Z) :
  0 <= i -> slice_from (pre ++ l) (len pre + i) = slice_from l i.
Proof.
  intros Hi. pose proof (len_nonneg pre); pose proof (len_nonneg l).
  unfold slice_from. rewrite !clamp_index_nonneg by lia. rewrite len_app.
  rewrite Z.add_min_distr_l.
  rewrite skipn_app, skipn_all2 by (unfold len; lia). cbn [app].
  f_equal. unfold len; lia.
Qed.

Lemma struct_unpack_BBH_range (buf : bytes) (dp_id dp_type dp_length : Z) :
  struct_unpack_BBH buf = Some (dp_id, dp_type, dp_length) ->
  0 <= dp_id <= 255 /\ 0 <= dp_type <= 255 /\ 0 <= dp_length <= 65535.
Proof.
  destruct buf as [|a [|b [|c [|d [|e buf]]]]]; cbn [struct_unpack_BBH];
    intros H; try discriminate.
  injection H as <- <- <-.
  pose proof (byte_val_range a); pose proof (byte_val_range b).
  pose proof (int_from_bytes_big_2_range c d). lia.
Qed.

Lemma body_shift (pre rest : bytes) (offset : Z) (found parsed_dps : list data_point) :
  0 <= offset ->
  parse_data_units_body (pre ++ rest) (len pre + offset) (found ++ parsed_dps)
  = run_map (shift_ctl (len pre) found) (parse_data_units_body rest offset parsed_dps).
Proof.
  intros Hoff. unfold parse_data_units_body, run_map. rewrite len_app.
  replace (len pre + offset + 4) with (len pre + (offset + 4)) by lia.
  replace (len pre + (offset + 4) >? len pre + len rest) with (offset + 4 >? len rest)
    by (rewrite !Z.gtb_ltb; apply Bool.eq_true_iff_eq; rewrite !Z.ltb_lt; lia).
  destruct (offset + 4 >? len rest).
  { cbn [bind shift_ctl]. rewrite slice_from_shift by lia.
    now rewrite <- app_assoc. }
  rewrite slice_shift by lia.
  destruct (struct_unpack_BBH (slice rest offset (offset + 4)))
    as [[[dp_id dp_type] dp_length]|] eqn:Hhdr.
  2:{ cbn [bind shift_ctl]. rewrite slice_from_shift by lia.
      now rewrite <- app_assoc. }
  apply struct_unpack_BBH_range in Hhdr. cbv zeta.
  replace (len pre + (offset + 4) + dp_length) with (len pre + (offset + 4 + dp_length)) by lia.
  replace (len pre + (offset + 4 + dp_length) >? len pre + len rest)
    with (offset + 4 + dp_length >? len rest)
    by (rewrite !Z.gtb_ltb; apply Bool.eq_true_iff_eq; rewrite !Z.ltb_lt; lia).
  destruct (offset + 4 + dp_length >? len rest).
  { cbn [bind shift_ctl].
    replace (len pre + (offset + 4) - 4) with (len pre + (offset + 4 - 4)) by lia.
    rewrite slice_from_shift by lia. now rewrite <- app_assoc. }
  rewrite slice_shift by lia.
  destruct (decode_dp_value dp_type dp_length
              (slice rest (offset + 4) (offset + 4 + dp_length))); cbn [bind shift_ctl];
    try reflexivity.
  now rewrite <- app_assoc.
Qed.

Lemma loop_shift (fuel : nat) (pre rest : bytes) :
  forall (offset : Z) (found parsed_dps : list data_point),
  0 <= offset ->
  parse_data_units_loop fuel (pre ++ rest) (len pre + offset) (found ++ parsed_dps)
  = run_map (app found) (parse_data_units_loop fuel rest offset parsed_dps).
Proof.
  induction fuel as [|fuel IH]; intros offset found parsed_dps Hoff;
    cbn [parse_data_units_loop]; rewrite len_app;
    replace (len pre + offset <? len pre + len rest) with (offset <? len rest)
      by (apply Bool.eq_true_iff_eq; rewrite !Z.ltb_lt; lia);
    destruct (Z.ltb_spec offset (len rest)); try reflexivity.
  rewrite body_shift by lia.
  destruct (parse_data_units_body rest offset parsed_dps) as [[r|o r]|e|] eqn:Hb;
    cbn [run_map bind shift_ctl]; try reflexivity.
  assert (0 <= o).
  { revert Hb. unfold parse_data_units_body.
    destruct (offset + 4 >? len rest); [discriminate|].
    destruct (struct_unpack_BBH _) as [[[i t] L]|] eqn:Hh; [|discriminate].
    apply struct_unpack_BBH_range in Hh. cbv zeta.
    destruct (offset + 4 + L >? len rest); [discriminate|].
    destruct (decode_dp_value _ _ _); cbn [bind]; try discriminate.
    intros [= <- _]. lia. }
  now apply IH.
Qed.

(** *** The shape of the output *)

Lemma unit_size_min (r : data_point) : is_data_unit r = true -> 4 <= unit_size r.
Proof.
  destruct r; cbn [is_data_unit unit_size]; try discriminate. intros _.
  pose proof (len_nonneg raw_value). lia.
Qed.

Lemma units_size_count (rs : list data_point) :
  Forall (fun r => is_data_unit r = true) rs -> 4 * len rs <= units_size rs.
Proof.
  induction 1 as [|r rs Hr _ IH]; cbn [units_size fold_right].
  - change (len (@nil data_point)) with 0. lia.
  - rewrite len_cons. apply unit_size_min in Hr. fold (units_size rs). lia.
Qed.

(** Every way one pass of the loop body can end, for a cursor inside
    the payload. *)
Lemma body_cases (data : bytes) (offset : Z) (parsed_dps : list data_point) :
  0 <= offset -> offset < len data ->
  (len data < offset + 4
   /\ parse_data_units_body data offset parsed_dps
      = Returned (Break (parsed_dps ++ [IncompleteDataUnit (slice_from data offset)])))
  \/ exists dp_id dp_type dp_length,
       offset + 4 <= len data
       /\ struct_unpack_BBH (slice data offset (offset + 4)) = Some (dp_id, dp_type, dp_length)
       /\ 0 <= dp_length <= 65535
       /\ ((len data < offset + 4 + dp_length
            /\ parse_data_units_body data offset parsed_dps
               = Returned (Break (parsed_dps ++
                   [IncompleteDataUnitValue dp_id dp_type dp_length (slice_from data offset)])))
           \/ (offset + 4 + dp_length <= len data
               /\ exists dv,
                    len (slice data (offset + 4) (offset + 4 + dp_length)) = dp_length
                    /\ parse_data_units_body data offset parsed_dps
                       = Returned (Continue (offset + 4 + dp_length) (parsed_dps ++
                           [DataUnit dp_id dp_type dp_length dv
                              (slice data (offset + 4) (offset + 4 + dp_length))])))).
Proof.
  intros Hoff Hlt. unfold parse_data_units_body.
  destruct (Z.gtb_spec (offset + 4) (len data)) as [Hshort|Hroom].
  { left. split; [lia | reflexivity]. }
  right.
  assert (Hl4 : len (slice data offset (offset + 4)) = 4)
    by (rewrite len_slice; lia).
  destruct (@length4_inv _ (slice data offset (offset + 4))) as (a & b & c & d & Hs).
  { unfold len in Hl4; lia. }
  rewrite Hs. cbn [struct_unpack_BBH].
  pose proof (int_from_bytes_big_2_range c d) as HL.
  exists (byte_val a), (byte_val b), (int_from_bytes_big [c; d]).
  split; [lia|]. split; [reflexivity|]. split; [lia|]. cbv zeta.
  destruct (Z.gtb_spec (offset + 4 + int_from_bytes_big [c; d]) (len data)) as [Hcut|Hfit].
  { left. split; [lia|]. now rewrite Z.add_simpl_r. }
  right. split; [lia|].
  assert (Hlv : len (slice data (offset + 4) (offset + 4 + int_from_bytes_big [c; d]))
                = int_from_bytes_big [c; d]) by (rewrite len_slice; lia).
  destruct (decode_dp_value_total (byte_val b)
              (slice data (offset + 4) (offset + 4 + int_from_bytes_big [c; d])))
    as [dv Hdv].
  rewrite Hlv in Hdv. exists dv. split; [exact Hlv|]. now rewrite Hdv.
Qed.

(** The loop returns, with enough passes allowed; what it adds to the
    records found so far is a run of decoded units, followed by at most
    one truncation record, and the units account for no more bytes than
    remained. *)
Lemma loop_spec (fuel : nat) :
  forall (data : bytes) (offset : Z) (parsed_dps : list data_point),
  0 <= offset <= len data ->
  len data - offset <= Z.of_nat fuel ->
  exists units tail,
    parse_data_units_loop fuel data offset parsed_dps
      = Returned (parsed_dps ++ units ++ tail)
    /\ Forall (fun r => is_data_unit r = true) units
    /\ units_size units <= len data - offset
    /\ (tail = []
        \/ exists e, tail = [e] /\ is_truncation e = true
                     /\ units_size units < len data - offset).
Proof.
  induction fuel as [|fuel IH]; intros data offset parsed_dps Hoff Hfuel;
    cbn [parse_data_units_loop]; destruct (Z.ltb_spec offset (len data)) as [Hlt|Hge];
    try lia.
  1,3: exists [], []; cbn [app units_size fold_right]; rewrite app_nil_r;
       repeat split; auto; lia.
  destruct (@body_cases data offset parsed_dps) as
    [[Hshort ->] | (i & t & L & Hroom & Hhdr & HL & [[Hcut ->] | (Hfit & dv & Hlv & ->)])];
    try lia; cbn [bind].
  1,2: exists []; eexists [_]; cbn [app units_size fold_right];
       repeat split; auto; try lia; right; eexists; repeat split; auto; lia.
  destruct (IH data (offset + 4 + L)
              (parsed_dps ++ [DataUnit i t L dv (slice data (offset + 4) (offset + 4 + L))]))
    as (units & tail & -> & Hunits & Hsize & Htail); try lia.
  eexists (_ :: units), tail. rewrite <- app_assoc. cbn [app].
  split; [reflexivity|]. split; [constructor; auto|].
  cbn [units_size fold_right unit_size]. fold (units_size units). rewrite Hlv.
  split; [lia|].
  destruct Htail as [->|(e & -> & He & Hlt')]; [now left|].
  right. exists e. repeat split; auto. lia.
Qed.

Lemma loop_unfold (fuel : nat) (data : bytes) (offset : Z) (parsed_dps : list data_point) :
  parse_data_units_loop (S fuel) data offset parsed_dps
  = if offset <? len data then
      ctl <- parse_data_units_body data offset parsed_dps ;;
      match ctl with
      | Break parsed_dps' => Returned parsed_dps'
      | Continue offset' parsed_dps' => parse_data_units_loop fuel data offset' parsed_dps'
      end
    else Returned parsed_dps.
Proof. reflexivity. Qed.

(** Passes allowed beyond those the loop needs change nothing. *)
Lemma loop_more_fuel (fuel : nat) :
  forall (fuel' : nat) (data : bytes) (offset : Z) (parsed_dps r : list data_point),
  (fuel <= fuel')%nat ->
  parse_data_units_loop fuel data offset parsed_dps = Returned r ->
  parse_data_units_loop fuel' data offset parsed_dps = Returned r.
Proof.
  induction fuel as [|fuel IH]; intros fuel' data offset parsed_dps r Hle;
    destruct fuel' as [|fuel']; try lia; cbn [parse_data_units_loop];
    destruct (offset <? len data); try discriminate; auto.
  destruct (parse_data_units_body data offset parsed_dps) as [[r'|o r']|e|];
    cbn [bind]; auto.
  apply IH. lia.
Qed.

Lemma loop_enough_fuel (fuel : nat) (data : bytes) (offset : Z)
    (parsed_dps : list data_point) :
  0 <= offset <= len data ->
  len data - offset <= Z.of_nat fuel ->
  parse_data_units_loop fuel data offset parsed_dps
  = parse_data_units_loop (Z.to_nat (len data - offset)) data offset parsed_dps.
Proof.
  intros Hoff Hfuel.
  destruct (@loop_spec (Z.to_nat (len data - offset)) data offset parsed_dps)
    as (units & tail & Hrun & _); try lia.
  rewrite Hrun. eapply loop_more_fuel; [|exact Hrun]. lia.
Qed.

(** After the bytes [before], the loop finds in [rest] what
    [parse_data_units rest] finds, whatever was found so far. *)
Lemma loop_resumes_on_rest (before rest : bytes) (found : list data_point) (k : nat) :
  parse_data_units_loop (length rest + k) (before ++ rest) (len before) found
  = run_map (app found) (parse_data_units rest).
Proof.
  pose proof (@loop_shift (length rest + k) before rest 0 found [] (Z.le_refl 0)) as H.
  rewrite Z.add_0_r, app_nil_r in H. rewrite H. unfold parse_data_units.
  pose proof (len_nonneg rest).
  rewrite (@loop_enough_fuel (length rest + k)), (@loop_enough_fuel (length rest));
    unfold len in *; try lia.
  reflexivity.
Qed.

Lemma parse_data_units_total (data : bytes) :
  exists rs, parse_data_units data = Returned rs.
Proof.
  pose proof (len_nonneg data).
  destruct (@loop_spec (length data) data 0 []) as (units & tail & Hrun & _);
    [lia | unfold len; lia |].
  eexists; exact Hrun.
Qed.

(** A complete unit at the head of the payload becomes the first record,
    and the rest of the payload is parsed as it would be alone. *)
Lemma parse_data_units_cons (a b c d : byte) (value rest : bytes) :
  len value = int_from_bytes_big [c; d] ->
  exists dv following,
    decode_dp_value (byte_val b) (len value) value = Returned dv
    /\ parse_data_units rest = Returned following
    /\ parse_data_units (a :: b :: c :: d :: value ++ rest)
       = Returned (DataUnit (byte_val a) (byte_val b) (len value) dv value :: following).
Proof.
  intros HL.
  destruct (decode_dp_value_total (byte_val b) value) as [dv Hdv].
  destruct (parse_data_units_total rest) as [following Hrest].
  exists dv, following. split; [exact Hdv|]. split; [exact Hrest|].
  pose proof (@body_complete [] a b c d value rest [] HL) as Hbody.
  rewrite Hdv in Hbody. cbn [app bind] in Hbody. change (len (@nil byte)) with 0 in Hbody.
  unfold parse_data_units.
  replace (length (a :: b :: c :: d :: value ++ rest))
    with (S (length rest + (3 + length value)))
    by (cbn [length]; rewrite length_app; lia).
  rewrite loop_unfold.
  replace (0 <? len (a :: b :: c :: d :: value ++ rest)) with true.
  2:{ symmetry; apply Z.ltb_lt. rewrite !len_cons.
      pose proof (len_nonneg (value ++ rest)); lia. }
  rewrite Hbody. cbn [bind].
  pose proof (@loop_resumes_on_rest (a :: b :: c :: d :: value) rest
                [DataUnit (byte_val a) (byte_val b) (len value) dv value]
                (3 + length value)) as Hres.
  rewrite Hrest in Hres. cbn [run_map bind app] in Hres.
  rewrite !len_cons in Hres.
  replace (1 + (1 + (1 + (1 + len value)))) with (0 + 4 + len value) in Hres by lia.
  exact Hres.
Qed.

(** ** Claims about [parse_data_units] *)

(** How the loop ends, told by the cursor: after the decoded units the
    cursor stands at the end of the payload and nothing more is
    appended, or it stands inside the payload and the one truncation
    record for that place ends the output. *)
Lemma loop_outcome (fuel : nat) :
  forall (data : bytes) (offset : Z) (parsed_dps : list data_point),
  0 <= offset <= len data ->
  len data - offset <= Z.of_nat fuel ->
  exists units tail,
    parse_data_units_loop fuel data offset parsed_dps
      = Returned (parsed_dps ++ units ++ tail)
    /\ Forall (fun r => is_data_unit r = true) units
    /\ ((offset + units_size units = len data /\ tail = [])
        \/ (offset + units_size units < len data
            /\ len data < offset + units_size units + 4
            /\ tail = [IncompleteDataUnit (slice_from data (offset + units_size units))])
        \/ (exists dp_id dp_type dp_length,
              offset + units_size units + 4 <= len data
              /\ struct_unpack_BBH
                   (slice data (offset + units_size units) (offset + units_size units + 4))
                 = Some (dp_id, dp_type, dp_length)
              /\ len data < offset + units_size units + 4 + dp_length
              /\ tail = [IncompleteDataUnitValue dp_id dp_type dp_length
                           (slice_from data (offset + units_size units))])).
Proof.
  induction fuel as [|fuel IH]; intros data offset parsed_dps Hoff Hfuel;
    cbn [parse_data_units_loop]; destruct (Z.ltb_spec offset (len data)) as [Hlt|Hge];
    try lia.
  1,3: exists [], []; cbn [app units_size fold_right]; rewrite app_nil_r, Z.add_0_r;
       split; [reflexivity|]; split; [constructor|]; left; split; [lia | reflexivity].
  destruct (@body_cases data offset parsed_dps) as
    [[Hshort ->] | (i & t & L & Hroom & Hhdr & HL & [[Hcut ->] | (Hfit & dv & Hlv & ->)])];
    try lia; cbn [bind].
  - exists []; eexists [_]. cbn [app units_size fold_right]. rewrite Z.add_0_r.
    split; [reflexivity|]. split; [constructor|]. right; left. repeat split; auto; lia.
  - exists []; eexists [_]. cbn [app units_size fold_right]. rewrite Z.add_0_r.
    split; [reflexivity|]. split; [constructor|]. right; right.
    exists i, t, L. repeat split; auto; lia.
  - destruct (IH data (offset + 4 + L)
                (parsed_dps ++ [DataUnit i t L dv (slice data (offset + 4) (offset + 4 + L))]))
      as (units & tail & -> & Hunits & Hend); try lia.
    eexists (_ :: units), tail. rewrite <- app_assoc. cbn [app].
    split; [reflexivity|]. split; [constructor; auto|].
    cbn [units_size fold_right unit_size]. fold (units_size units). rewrite Hlv.
    replace (offset + (4 + L + units_size units))
      with (offset + 4 + L + units_size units) by lia.
    exact Hend.
Qed.

Lemma loop_past_end (fuel : nat) (data : bytes) (offset : Z)
    (parsed_dps : list data_point) :
  len data <= offset ->
  parse_data_units_loop fuel data offset parsed_dps = Returned parsed_dps.
Proof.
  intros H. destruct fuel; cbn [parse_data_units_loop];
    destruct (Z.ltb_spec offset (len data)); try lia; reflexivity.
Qed.

(** C5: for every input, [parse_data_units] returns a sequence: it
    raises nothing and needs no more passes than the payload has bytes
    (granting more changes nothing).  Every pass with the cursor inside
    the payload either leaves the loop with a truncation record appended
    or moves the cursor forward by at least 4 without passing the end.
    When fewer than 4 bytes remain the pass stops with "Incomplete data
    unit"; when the header is there but the declared value is not, it
    stops with "Incomplete data unit value".  The function is these
    passes and nothing else: from any cursor it returns what it has
    when the cursor is at the end, what the pass returns when the pass
    breaks, and otherwise goes on from the cursor and records the pass
    leaves.  So what the function returns is the decoded units and then,
    exactly when the cursor after them is still inside the payload, the
    truncation record for that place, as its last element. *)
Theorem parse_data_units_terminates (data : bytes) :
  (exists rs, parse_data_units data = Returned rs
     /\ forall extra : nat,
          parse_data_units_loop (length data + extra) data 0 [] = Returned rs)
  /\ (forall offset parsed_dps, 0 <= offset < len data ->
        (exists e, parse_data_units_body data offset parsed_dps
                   = Returned (Break (parsed_dps ++ [e]))
                   /\ is_truncation e = true)
        \/ (exists offset' u, parse_data_units_body data offset parsed_dps
                   = Returned (Continue offset' (parsed_dps ++ [u]))
                   /\ is_data_unit u = true
                   /\ offset + 4 <= offset' <= len data))
  /\ (forall offset parsed_dps, 0 <= offset < len data -> len data < offset + 4 ->
        parse_data_units_body data offset parsed_dps
        = Returned (Break (parsed_dps ++ [IncompleteDataUnit (slice_from data offset)])))
  /\ (forall offset parsed_dps dp_id dp_type dp_length,
        0 <= offset -> offset + 4 <= len data ->
        struct_unpack_BBH (slice data offset (offset + 4)) = Some (dp_id, dp_type, dp_length) ->
        len data < offset + 4 + dp_length ->
        parse_data_units_body data offset parsed_dps
        = Returned (Break (parsed_dps ++
            [IncompleteDataUnitValue dp_id dp_type dp_length (slice_from data offset)])))
  /\ (forall offset parsed_dps (extra : nat), 0 <= offset ->
        parse_data_units_loop (length data + extra) data offset parsed_dps
        = if offset <? len data then
            match parse_data_units_body data offset parsed_dps with
            | Returned (Break parsed_dps') => Returned parsed_dps'
            | Returned (Continue offset' parsed_dps') =>
              parse_data_units_loop (length data + extra) data offset' parsed_dps'
            | Raised e => Raised e
            | OutOfFuel => OutOfFuel
            end
          else Returned parsed_dps)
  /\ (exists units tail,
        parse_data_units data = Returned (units ++ tail)
        /\ Forall (fun r => is_data_unit r = true) units
        /\ ((units_size units = len data /\ tail = [])
            \/ (units_size units < len data /\ len data < units_size units + 4
                /\ tail = [IncompleteDataUnit (slice_from data (units_size units))])
            \/ (exists dp_id dp_type dp_length,
                  units_size units + 4 <= len data
                  /\ struct_unpack_BBH
                       (slice data (units_size units) (units_size units + 4))
                     = Some (dp_id, dp_type, dp_length)
                  /\ len data < units_size units + 4 + dp_length
                  /\ tail = [IncompleteDataUnitValue dp_id dp_type dp_length
                               (slice_from data (units_size units))]))).
Proof.
  split; [|split; [|split; [|split; [|split]]]].
  - destruct (parse_data_units_total data) as [rs Hrs]. exists rs. split; [exact Hrs|].
    intros extra. eapply loop_more_fuel; [|exact Hrs]. lia.
  - intros offset parsed_dps [Hlo Hhi].
    destruct (@body_cases data offset parsed_dps Hlo Hhi) as
      [[_ ->] | (i & t & L & Hroom & _ & HL & [[_ ->] | (Hfit & dv & _ & ->)])].
    + left. eexists; split; reflexivity.
    + left. eexists; split; reflexivity.
    + right. do 2 eexists. split; [reflexivity|]. split; [reflexivity|]. lia.
  - intros offset parsed_dps [Hlo Hhi] Hshort.
    destruct (@body_cases data offset parsed_dps Hlo Hhi) as
      [[_ ->] | (i & t & L & Hroom & _)]; [reflexivity | lia].
  - intros offset parsed_dps dp_id dp_type dp_length Hlo Hroom Hhdr Hcut.
    destruct (@body_cases data offset parsed_dps Hlo) as
      [[Hshort _] | (i & t & L & _ & Hhdr' & HL & [[_ ->] | (Hfit & _)])]; try lia.
    + rewrite Hhdr in Hhdr'. now injection Hhdr' as <- <- <-.
    + rewrite Hhdr in Hhdr'. injection Hhdr' as <- <- <-. lia.
  - intros offset parsed_dps extra Hlo.
    destruct (Z.ltb_spec offset (len data)) as [Hhi|Hge];
      [|now apply loop_past_end].
    destruct (length data + extra)%nat as [|fuel] eqn:Hfuel.
    { unfold len in Hhi. lia. }
    rewrite loop_unfold.
    destruct (Z.ltb_spec offset (len data)) as [_|]; [|lia].
    destruct (@body_cases data offset parsed_dps Hlo Hhi) as
      [[_ ->] | (i & t & L & Hroom & _ & HL & [[_ ->] | (Hfit & dv & _ & ->)])];
      cbn [bind]; try reflexivity.
    rewrite (@loop_enough_fuel fuel), (@loop_enough_fuel (S fuel));
      unfold len in *; try lia.
    reflexivity.
  - pose proof (len_nonneg data) as Hlen.
    destruct (@loop_outcome (length data) data 0 [])
      as (units & tail & Hrun & Hunits & Hend); [lia | unfold len; lia |].
    exists units, tail. split; [exact Hrun|]. split; [exact Hunits|].
    rewrite !Z.add_0_l in Hend. exact Hend.
Qed.

(** Three bytes cannot hold a unit header: the function returns the one
    record "Incomplete data unit" carrying them. *)
Lemma parse_data_units_terminates_witness :
  parse_data_units [x01; x02; x00] = Returned [IncompleteDataUnit [x01; x02; x00]].
Proof.
  exact (proj1 (proj2 (proj2 (proj2 (proj2
           (@parse_data_units_terminates [x01; x02; x00]))))) 0 [] 0%nat (Z.le_refl 0)).
Defined.

(** C9: the sequence [parse_data_units] returns is a run of decoded
    data-unit records followed by at most one truncation record
    ("Incomplete data unit" or "Incomplete data unit value"), which can
    therefore only be the last element.  Each decoded record accounts
    for its 4 header bytes and its value, all of them in the payload, so
    the sequence has at most [len(payload) / 4 + 1] elements. *)
Theorem parse_data_units_shape (data : bytes) :
  exists units tail,
    parse_data_units data = Returned (units ++ tail)
    /\ Forall (fun r => is_data_unit r = true) units
    /\ (tail = [] \/ exists e, tail = [e] /\ is_truncation e = true)
    /\ 4 * len units <= units_size units <= len data
    /\ len (units ++ tail) <= len data / 4 + 1.
Proof.
  pose proof (len_nonneg data) as Hlen.
  destruct (@loop_spec (length data) data 0 []) as (units & tail & Hrun & Hunits & Hsize & Htail);
    [lia | unfold len; lia |].
  cbn [app] in Hrun.
  exists units, tail. split; [exact Hrun|]. split; [exact Hunits|].
  pose proof (units_size_count Hunits) as Hcount.
  assert (Hdiv : len units <= len data / 4) by (apply Z.div_le_lower_bound; lia).
  split; [|split; [lia|]].
  - destruct Htail as [->|(e & -> & He & _)]; [now left|]. right. now exists e.
  - rewrite len_app.
    destruct Htail as [->|(e & -> & _)].
    + change (len (@nil data_point)) with 0. lia.
    + change (len [e]) with 1. lia.
Qed.

(** Once the cursor is past a unit, the passes that follow see only
    [rest]. *)
Lemma loop_after_unit (pre : bytes) (a b c d : byte) (value rest : bytes)
    (found : list data_point) (extra : nat) :
  parse_data_units_loop (length rest + extra)
    (pre ++ a :: b :: c :: d :: value ++ rest) (len pre + 4 + len value) found
  = run_map (app found) (parse_data_units rest).
Proof.
  rewrite <- (@loop_resumes_on_rest (pre ++ a :: b :: c :: d :: value) rest found extra).
  rewrite len_app, !len_cons, <- app_assoc. cbn [app].
  f_equal. lia.
Qed.

Lemma decode_int32_wrong_length (dp_length : Z) (dp_value : bytes) :
  dp_length <> 4 ->
  decode_dp_value 2 dp_length dp_value
  = Returned (VError (InvalidLengthValue dp_length) dp_value).
Proof.
  intros H. unfold decode_dp_value. cbn [Z.eqb Pos.eqb].
  apply Z.eqb_neq in H. now rewrite H.
Qed.

(** C4: a data unit with type tag 2 (Integer32) whose declared value
    length is not 4, met at any cursor position with any records found
    so far, is appended as a record whose decoded value is the
    invalid-length error carrying the raw value bytes, and the pass ends
    by continuing the loop with the cursor past the value.  The passes
    that follow find in the rest of the payload exactly what
    [parse_data_units] finds in it alone; in particular a complete unit
    that comes next is decoded to its own record. *)
Theorem int32_wrong_length_not_fatal (pre : bytes) (a c d : byte) (value rest : bytes)
    (parsed_dps : list data_point) :
  len value = int_from_bytes_big [c; d] ->
  len value <> 4 ->
  let data := pre ++ a :: x02 :: c :: d :: value ++ rest in
  let record :=
    DataUnit (byte_val a) 2 (len value)
             (VError (InvalidLengthValue (len value)) value) value in
  parse_data_units_body data (len pre) parsed_dps
    = Returned (Continue (len pre + 4 + len value) (parsed_dps ++ [record]))
  /\ exists following,
       parse_data_units rest = Returned following
       /\ (forall extra : nat,
             parse_data_units_loop (length rest + extra) data (len pre + 4 + len value)
               (parsed_dps ++ [record])
             = Returned (parsed_dps ++ record :: following))
       /\ parse_data_units (a :: x02 :: c :: d :: value ++ rest)
          = Returned (record :: following)
       /\ (forall a' b' c' d' value' rest',
             rest = a' :: b' :: c' :: d' :: value' ++ rest' ->
             len value' = int_from_bytes_big [c'; d'] ->
             exists dv more,
               decode_dp_value (byte_val b') (len value') value' = Returned dv
               /\ following
                  = DataUnit (byte_val a') (byte_val b') (len value') dv value' :: more).
Proof.
  intros HL Hne data record.
  pose proof (@decode_int32_wrong_length (len value) value Hne) as Hdec.
  split.
  - unfold data. rewrite body_complete by exact HL.
    change (byte_val x02) with 2. rewrite Hdec. reflexivity.
  - destruct (@parse_data_units_cons a x02 c d value rest HL)
      as (dv & following & Hdv & Hrest & Hall).
    change (byte_val x02) with 2 in *. rewrite Hdec in Hdv. injection Hdv as <-.
    exists following. split; [exact Hrest|]. split; [|split; [exact Hall|]].
    + intros extra. unfold data. rewrite loop_after_unit, Hrest.
      cbn [run_map bind]. now rewrite <- app_assoc.
    + intros a' b' c' d' value' rest' -> HL'.
      destruct (@parse_data_units_cons a' b' c' d' value' rest' HL')
        as (dv' & more & Hdv' & _ & Hall').
      rewrite Hall' in Hrest. injection Hrest as <-.
      now exists dv', more.
Qed.

(** An Integer32 unit of declared length 3 followed by the well-formed
    Integer32 unit of value 123: both records come out. *)
Lemma int32_wrong_length_not_fatal_witness :
  parse_data_units
    ([x09; x02; x00; x03; xde; xad; xbe]
       ++ [x01; x02; x00; x04; x00; x00; x00; x7b])
  = Returned
      [DataUnit 9 2 3 (VError (InvalidLengthValue 3) [xde; xad; xbe]) [xde; xad; xbe];
       DataUnit 1 2 4 (VInt 123) [x00; x00; x00; x7b]].
Proof.
  destruct (@int32_wrong_length_not_fatal [] x09 x00 x03 [xde; xad; xbe]
              [x01; x02; x00; x04; x00; x00; x00; x7b] [])
    as (_ & following & Hrest & _ & Hall & _).
  - reflexivity.
  - discriminate.
  - vm_compute in Hrest. injection Hrest as <-. exact Hall.
Defined.

(** C10: a data unit with declared value length 0, its 4 header bytes
    present, is appended as an ordinary record with the empty raw value,
    not an error stop: the pass continues the loop with the cursor
    advanced by 4, and the rest of the payload is parsed as it would be
    alone.  Type Raw (0) decodes to the empty bytes and type Boolean (1)
    to False. *)
Theorem zero_length_unit_accepted (pre : bytes) (a b : byte) (rest : bytes)
    (parsed_dps : list data_point) :
  let data := pre ++ a :: b :: x00 :: x00 :: rest in
  exists dv,
    decode_dp_value (byte_val b) 0 [] = Returned dv
    /\ (b = x00 -> dv = VBytes [])
    /\ (b = x01 -> dv = VBool false)
    /\ let record := DataUnit (byte_val a) (byte_val b) 0 dv [] in
       parse_data_units_body data (len pre) parsed_dps
         = Returned (Continue (len pre + 4) (parsed_dps ++ [record]))
       /\ exists following,
            parse_data_units rest = Returned following
            /\ (forall extra : nat,
                  parse_data_units_loop (length rest + extra) data (len pre + 4)
                    (parsed_dps ++ [record])
                  = Returned (parsed_dps ++ record :: following))
            /\ parse_data_units (a :: b :: x00 :: x00 :: rest)
               = Returned (record :: following).
Proof.
  intros data.
  assert (HL : len (@nil byte) = int_from_bytes_big [x00; x00]) by reflexivity.
  destruct (@parse_data_units_cons a b x00 x00 [] rest HL)
    as (dv & following & Hdv & Hrest & Hall).
  change (len (@nil byte)) with 0 in *. cbn [app] in Hall.
  exists dv. split; [exact Hdv|].
  split; [intros ->; vm_compute in Hdv; congruence|].
  split; [intros ->; vm_compute in Hdv; congruence|].
  intros record. split.
  - pose proof (@body_complete pre a b x00 x00 [] rest parsed_dps HL) as Hbody.
    change (len (@nil byte)) with 0 in Hbody. rewrite Hdv, Z.add_0_r in Hbody.
    exact Hbody.
  - exists following. split; [exact Hrest|]. split; [|exact Hall].
    intros extra.
    pose proof (@loop_after_unit pre a b x00 x00 [] rest (parsed_dps ++ [record]) extra) as H.
    change (len (@nil byte)) with 0 in H. rewrite Z.add_0_r, Hrest in H.
    cbn [app run_map bind] in H. rewrite <- app_assoc in H. exact H.
Qed.

(** ** The packet decoder on a frame laid out byte by byte *)

Lemma getitem_app (pre : bytes) (x : byte) (post : bytes) :
  getitem (pre ++ x :: post) (len pre) = Returned (byte_val x).
Proof.
  pose proof (len_nonneg pre); pose proof (len_nonneg post).
  unfold getitem. destruct (Z.ltb_spec (len pre) 0); [lia|].
  rewrite len_app, len_cons.
  destruct (Z.leb_spec 0 (len pre)); [|lia].
  destruct (Z.ltb_spec (len pre) (len pre + (1 + len post))); [|lia].
  cbn [andb]. rewrite to_nat_len, nth_error_app2, Nat.sub_diag by lia.
  reflexivity.
Qed.

Lemma getitem_app_eq (l pre : bytes) (x : byte) (post : bytes) (k : Z) :
  l = pre ++ x :: post -> k = len pre -> getitem l k = Returned (byte_val x).
Proof. intros -> ->. apply getitem_app. Qed.

Lemma slice_to_app_eq {A : Type} (l pre post : list A) (j : Z) :
  l = pre ++ post -> j = len pre -> slice_to l j = pre.
Proof. intros -> ->. apply slice_to_app. Qed.

(** What [parse_tuya_packet] does on a frame whose declared length
    matches the bytes present: six header bytes, the payload, the
    checksum byte, and whatever trails. *)
Lemma parse_tuya_packet_framed (m0 m1 v c1 c2 l : byte) (data : bytes) (ck : byte)
    (trailing : bytes) :
  len data = byte_val l ->
  let packet_data := m0 :: m1 :: v :: c1 :: c2 :: l :: data ++ ck :: trailing in
  let calculated := calculate_checksum (m0 :: m1 :: v :: c1 :: c2 :: l :: data) in
  parse_tuya_packet packet_data
  = if negb (calculated =? byte_val ck)
    then Returned (ChecksumMismatch calculated (byte_val ck) packet_data)
    else (parsed_data <- parse_data_units data ;;
          Returned (Packet (byte_val v) (int_from_bytes_big [c1; c2]) (byte_val l)
                           data (byte_val ck) parsed_data)).
Proof.
  intros HL packet_data calculated. unfold parse_tuya_packet.
  pose proof (len_nonneg data); pose proof (len_nonneg trailing).
  assert (Hlen : len packet_data = 6 + len data + 1 + len trailing)
    by (unfold packet_data; rewrite !len_cons, len_app, len_cons; lia).
  rewrite Hlen.
  destruct (Z.ltb_spec (6 + len data + 1 + len trailing) 7); [lia|].
  rewrite (@slice_middle_eq _ [m0; m1] [v; c1; c2; l] (data ++ ck :: trailing))
    by reflexivity.
  cbn [struct_unpack_BHB]. cbv zeta. rewrite <- HL.
  destruct (Z.ltb_spec (6 + len data + 1 + len trailing) (6 + len data + 1)); [lia|].
  rewrite (@slice_middle_eq _ [m0; m1; v; c1; c2; l] data (ck :: trailing))
    by reflexivity.
  rewrite (@getitem_app_eq packet_data ([m0; m1; v; c1; c2; l] ++ data) ck trailing)
    by (rewrite ?len_app; unfold packet_data; rewrite <- ?app_assoc; reflexivity).
  cbn [bind].
  rewrite (@slice_to_app_eq _ packet_data ([m0; m1; v; c1; c2; l] ++ data) (ck :: trailing))
    by (rewrite ?len_app; unfold packet_data; rewrite <- ?app_assoc; reflexivity).
  reflexivity.
Qed.

(** A frame of at least 7 bytes, read as header, payload of the
    declared length, checksum byte and trailing bytes, when the
    declared length fits. *)
Lemma frame_header (packet_data : bytes) :
  7 <= len packet_data ->
  exists m0 m1 v c1 c2 l tail,
    packet_data = m0 :: m1 :: v :: c1 :: c2 :: l :: tail /\ 1 <= len tail.
Proof.
  intros H.
  destruct packet_data as [|m0 [|m1 [|v [|c1 [|c2 [|l tail]]]]]];
    try (cbn in H; lia).
  exists m0, m1, v, c1, c2, l, tail. split; [reflexivity|].
  rewrite !len_cons in H. lia.
Qed.

Lemma frame_layout (packet_data : bytes) :
  7 <= len packet_data ->
  exists m0 m1 v c1 c2 l tail,
    packet_data = m0 :: m1 :: v :: c1 :: c2 :: l :: tail
    /\ len packet_data = 6 + len tail
    /\ (6 + byte_val l + 1 <= len packet_data ->
        exists data ck trailing,
          tail = data ++ ck :: trailing /\ len data = byte_val l).
Proof.
  intros H. destruct (@frame_header packet_data H) as (m0 & m1 & v & c1 & c2 & l & tail & -> & Htail).
  exists m0, m1, v, c1, c2, l, tail. split; [reflexivity|].
  rewrite !len_cons. split; [lia|]. intros Hfit.
  pose proof (byte_val_range l).
  destruct (@split_at _ tail (byte_val l)) as (data & post & -> & Hdata); try lia.
  rewrite len_app in Hfit.
  destruct post as [|ck trailing].
  - change (len (@nil byte)) with 0 in Hfit. lia.
  - now exists data, ck, trailing.
Qed.

(** The two rejections that come before the checksum is looked at. *)
Lemma parse_tuya_packet_short (packet_data : bytes) :
  len packet_data < 7 ->
  parse_tuya_packet packet_data = Returned (PacketTooShort packet_data).
Proof.
  intros H. unfold parse_tuya_packet.
  destruct (Z.ltb_spec (len packet_data) 7); [reflexivity | lia].
Qed.

Lemma parse_tuya_packet_short_for_length (m0 m1 v c1 c2 l : byte) (tail : bytes) :
  let packet_data := m0 :: m1 :: v :: c1 :: c2 :: l :: tail in
  7 <= len packet_data ->
  len packet_data < 6 + byte_val l + 1 ->
  parse_tuya_packet packet_data
  = Returned (PacketTooShortForLength (byte_val l) packet_data).
Proof.
  intros packet_data H7 Hshort. unfold parse_tuya_packet.
  destruct (Z.ltb_spec (len packet_data) 7); [lia|].
  pose proof (len_nonneg tail).
  destruct tail as [|t0 tail']; [cbn in H7; lia|].
  rewrite (@slice_middle_eq _ [m0; m1] [v; c1; c2; l] (t0 :: tail')) by reflexivity.
  cbn [struct_unpack_BHB]. cbv zeta.
  destruct (Z.ltb_spec (len packet_data) (6 + byte_val l + 1)); [reflexivity | lia].
Qed.

(** An accepted frame, read back. *)
Lemma parse_tuya_packet_accepts (packet_data : bytes) (version command data_length : Z)
    (data : bytes) (checksum : Z) (units : list data_point) :
  parse_tuya_packet packet_data
    = Returned (Packet version command data_length data checksum units) ->
  exists m0 m1 v c1 c2 l ck trailing,
    packet_data = m0 :: m1 :: v :: c1 :: c2 :: l :: data ++ ck :: trailing
    /\ len data = byte_val l
    /\ version = byte_val v /\ command = int_from_bytes_big [c1; c2]
    /\ data_length = byte_val l /\ checksum = byte_val ck
    /\ calculate_checksum (m0 :: m1 :: v :: c1 :: c2 :: l :: data) = checksum
    /\ parse_data_units data = Returned units.
Proof.
  intros Hp.
  destruct (Z.lt_ge_cases (len packet_data) 7) as [Hs|H7].
  { rewrite parse_tuya_packet_short in Hp by exact Hs. discriminate. }
  destruct (@frame_layout packet_data H7) as (m0 & m1 & v & c1 & c2 & l & tail & -> & Hlen & Hfit).
  destruct (Z.lt_ge_cases (len (m0 :: m1 :: v :: c1 :: c2 :: l :: tail)) (6 + byte_val l + 1))
    as [Hshort|Hroom].
  { rewrite parse_tuya_packet_short_for_length in Hp by assumption. discriminate. }
  destruct (Hfit Hroom) as (data' & ck & trailing & -> & HL).
  rewrite (@parse_tuya_packet_framed m0 m1 v c1 c2 l data' ck trailing HL) in Hp.
  destruct (Z.eqb_spec (calculate_checksum (m0 :: m1 :: v :: c1 :: c2 :: l :: data'))
                       (byte_val ck)) as [Heq|Hne]; cbn [negb] in Hp; [|discriminate].
  destruct (parse_data_units data') as [units'| |] eqn:Hunits; cbn [bind] in Hp;
    try discriminate.
  injection Hp as <- <- <- <- <- <-.
  exists m0, m1, v, c1, c2, l, ck, trailing. repeat split; auto.
Qed.

(** ** Claims about [parse_tuya_packet] *)

(** C7: for every frame of at least 7 bytes the four header bytes at
    offsets 2 to 5 are there to unpack: version is the byte at offset 2,
    command the big-endian pair at offsets 3 and 4, the declared length
    the byte at offset 5; and [parse_tuya_packet] never returns the
    "Failed to unpack header fields" error. *)
Theorem header_unpack_never_fails (packet_data : bytes) :
  7 <= len packet_data ->
  (exists version command data_length,
     struct_unpack_BHB (slice packet_data 2 6) = Some (version, command, data_length)
     /\ getitem packet_data 2 = Returned version
     /\ command = int_from_bytes_big (slice packet_data 3 5)
     /\ getitem packet_data 5 = Returned data_length)
  /\ forall raw_data,
       parse_tuya_packet packet_data <> Returned (FailedUnpackHeaderFields raw_data).
Proof.
  intros H7.
  destruct (@frame_layout packet_data H7)
    as (m0 & m1 & v & c1 & c2 & l & tail & -> & Hlen & Hfit).
  split.
  - exists (byte_val v), (int_from_bytes_big [c1; c2]), (byte_val l).
    rewrite (@slice_middle_eq _ [m0; m1] [v; c1; c2; l] tail) by reflexivity.
    rewrite (@slice_middle_eq _ [m0; m1; v] [c1; c2] (l :: tail)) by reflexivity.
    rewrite (@getitem_app_eq _ [m0; m1] v (c1 :: c2 :: l :: tail)) by reflexivity.
    rewrite (@getitem_app_eq _ [m0; m1; v; c1; c2] l tail) by reflexivity.
    repeat split.
  - intros raw_data.
    destruct (Z.lt_ge_cases (len (m0 :: m1 :: v :: c1 :: c2 :: l :: tail))
                            (6 + byte_val l + 1)) as [Hshort|Hroom].
    + rewrite parse_tuya_packet_short_for_length by assumption. discriminate.
    + destruct (Hfit Hroom) as (data & ck & trailing & -> & HL).
      rewrite (@parse_tuya_packet_framed m0 m1 v c1 c2 l data ck trailing HL).
      destruct (negb _); [discriminate|].
      destruct (parse_data_units data); cbn [bind]; discriminate.
Qed.

Lemma header_unpack_never_fails_witness :
  struct_unpack_BHB (slice [x55; xaa; x03; x00; x07; x00; x08] 2 6) = Some (3, 7, 0)
  /\ parse_tuya_packet [x55; xaa; x03; x00; x07; x00; x08]
     <> Returned (FailedUnpackHeaderFields [x55; xaa; x03; x00; x07; x00; x08]).
Proof.
  split; [reflexivity|].
  refine (proj2 (@header_unpack_never_fails [x55; xaa; x03; x00; x07; x00; x08] _) _).
  vm_compute. discriminate.
Defined.

(** C1 as stated fails: the frame [55 AA 00 00 00 00 FF] is accepted
    although its checksum byte 255 is not the VERSION-to-PAYLOAD sum 0,
    and the frame [55 AA 00 00 00 00 00], whose checksum byte is that
    sum, is rejected with a checksum mismatch. *)
Lemma version_to_payload_checksum_refuted :
  parse_tuya_packet [x55; xaa; x00; x00; x00; x00; xff]
    = Returned (Packet 0 0 0 [] 255 [])
  /\ 255 <> version_to_payload_checksum [x55; xaa; x00; x00; x00; x00; xff] 0
  /\ parse_tuya_packet [x55; xaa; x00; x00; x00; x00; x00]
     = Returned (ChecksumMismatch 255 0 [x55; xaa; x00; x00; x00; x00; x00])
  /\ 0 = version_to_payload_checksum [x55; xaa; x00; x00; x00; x00; x00] 0.
Proof.
  split; [reflexivity|]. split; [|split; reflexivity].
  vm_compute. discriminate.
Qed.

(** C1, amended: the checksum covers the marker too.  For every frame
    [parse_tuya_packet] accepts, the received checksum byte, at offset
    [6 + data_length], equals the sum of all frame bytes before it, from
    offset 0, modulo 256.  For every frame that passes the two length
    checks, the result is the checksum-mismatch error exactly when that
    equality fails, and a Packet otherwise. *)
Theorem checksum_covers_marker (packet_data : bytes) :
  (forall version command data_length data checksum units,
     parse_tuya_packet packet_data
       = Returned (Packet version command data_length data checksum units) ->
     getitem packet_data (6 + data_length) = Returned checksum
     /\ checksum = marker_to_payload_checksum packet_data data_length)
  /\ (forall data_length,
        7 <= len packet_data ->
        getitem packet_data 5 = Returned data_length ->
        6 + data_length + 1 <= len packet_data ->
        exists received,
          getitem packet_data (6 + data_length) = Returned received
          /\ (received <> marker_to_payload_checksum packet_data data_length
              <-> parse_tuya_packet packet_data
                  = Returned (ChecksumMismatch
                                (marker_to_payload_checksum packet_data data_length)
                                received packet_data))
          /\ (received = marker_to_payload_checksum packet_data data_length
              <-> exists version command units,
                    parse_tuya_packet packet_data
                    = Returned (Packet version command data_length
                                  (slice packet_data 6 (6 + data_length))
                                  received units))).
Proof.
  split.
  - intros version command data_length data checksum units Hp.
    apply parse_tuya_packet_accepts in Hp.
    destruct Hp as (m0 & m1 & v & c1 & c2 & l & ck & trailing
                    & -> & HL & _ & _ & -> & -> & Hck & _).
    unfold marker_to_payload_checksum.
    rewrite (@getitem_app_eq _ ([m0; m1; v; c1; c2; l] ++ data) ck trailing),
            (@slice_to_app_eq _ _ ([m0; m1; v; c1; c2; l] ++ data) (ck :: trailing));
      try (rewrite ?len_app, <- ?app_assoc, <- ?HL; reflexivity).
    split; [reflexivity|]. rewrite <- Hck. apply calculate_checksum_eq.
  - intros data_length H7 H5 Hroom.
    destruct (@frame_layout packet_data H7)
      as (m0 & m1 & v & c1 & c2 & l & tail & -> & Hlen & Hfit).
    rewrite (@getitem_app_eq _ [m0; m1; v; c1; c2] l tail) in H5 by reflexivity.
    injection H5 as <-.
    destruct (Hfit Hroom) as (data & ck & trailing & -> & HL).
    exists (byte_val ck). unfold marker_to_payload_checksum.
    rewrite (@parse_tuya_packet_framed m0 m1 v c1 c2 l data ck trailing HL).
    rewrite (@getitem_app_eq _ ([m0; m1; v; c1; c2; l] ++ data) ck trailing),
            (@slice_to_app_eq _ _ ([m0; m1; v; c1; c2; l] ++ data) (ck :: trailing)),
            (@slice_middle_eq _ [m0; m1; v; c1; c2; l] data (ck :: trailing));
      try (rewrite ?len_app, <- ?app_assoc, <- ?HL; reflexivity).
    cbn [app]. rewrite <- calculate_checksum_eq.
    split; [reflexivity|].
    destruct (Z.eqb_spec (calculate_checksum (m0 :: m1 :: v :: c1 :: c2 :: l :: data))
                         (byte_val ck)) as [Heq|Hne]; cbn [negb].
    + destruct (parse_data_units_total data) as [units ->]. cbn [bind].
      split; split; try congruence; try discriminate.
      intros _. now exists (byte_val v), (int_from_bytes_big [c1; c2]), units.
    + split; split; try congruence.
      intros (version & command & units & Hp). discriminate.
Qed.

(** The accepted frame [55 AA 00 00 00 00 FF]: its checksum byte is the
    sum from the marker on. *)
Lemma checksum_covers_marker_witness :
  getitem [x55; xaa; x00; x00; x00; x00; xff] 6 = Returned 255
  /\ 255 = marker_to_payload_checksum [x55; xaa; x00; x00; x00; x00; xff] 0.
Proof.
  refine (proj1 (@checksum_covers_marker [x55; xaa; x00; x00; x00; x00; xff])
            0 0 0 [] 255 [] _).
  reflexivity.
Defined.

Lemma byte_val_of_Z (z : Z) : 0 <= z <= 255 -> byte_val (byte_of_Z z) = z.
Proof.
  intros Hz. unfold byte_of_Z, byte_val. rewrite Z.mod_small by lia.
  destruct (Byte.of_N (Z.to_N z)) as [b|] eqn:Hb.
  - apply Byte.to_of_N in Hb. rewrite Hb. lia.
  - apply Byte.of_N_None_iff in Hb. lia.
Qed.

Lemma replace_at_app (pre : bytes) (x y : byte) (post : bytes) :
  replace_at (pre ++ x :: post) (length pre) y = pre ++ y :: post.
Proof. induction pre as [|p pre IH]; cbn [app length replace_at]; congruence. Qed.

(** Changing one byte changes the checksum of the bytes covering it. *)
Lemma checksum_detects_byte (pre : bytes) (x y : byte) (post : bytes) :
  x <> y ->
  calculate_checksum (pre ++ x :: post) <> calculate_checksum (pre ++ y :: post).
Proof.
  intros Hxy Heq. apply Hxy, byte_val_inj.
  rewrite !calculate_checksum_eq, !arithmetic_sum_app in Heq.
  cbn [arithmetic_sum] in Heq.
  pose proof (byte_val_range x); pose proof (byte_val_range y).
  assert (Hd : (byte_val x - byte_val y) mod 256 = 0).
  { replace (byte_val x - byte_val y)
      with ((arithmetic_sum pre + (byte_val x + arithmetic_sum post))
            - (arithmetic_sum pre + (byte_val y + arithmetic_sum post))) by lia.
    rewrite Zminus_mod, Heq, Z.sub_diag. reflexivity. }
  apply Z.mod_divide in Hd; [|lia]. destruct Hd as [q Hq].
  assert (q = 0) by lia. lia.
Qed.

(** The frame of a message with the marker-inclusive checksum, decoded. *)
Lemma parse_frame_with_marker_sum (version command : Z) (payload : bytes)
    (units : list data_point) :
  0 <= version <= 255 ->
  0 <= command <= 65535 ->
  len payload <= 255 ->
  parse_data_units payload = Returned units ->
  parse_tuya_packet (build_frame version command payload)
  = Returned (Packet version command (len payload) payload
                (marker_inclusive_checksum version command payload) units).
Proof.
  intros Hv Hc Hp Hunits. pose proof (len_nonneg payload) as Hp0.
  unfold build_frame, marker_inclusive_checksum, frame_with_checksum, header_fields,
    PACKET_MARKER.
  cbn [app].
  set (v := byte_of_Z version). set (c1 := byte_of_Z (command / 256)).
  set (c2 := byte_of_Z (command mod 256)). set (l := byte_of_Z (len payload)).
  rewrite <- (calculate_checksum_eq (x55 :: xaa :: v :: c1 :: c2 :: l :: payload)).
  set (calculated := calculate_checksum (x55 :: xaa :: v :: c1 :: c2 :: l :: payload)).
  assert (HL : len payload = byte_val l)
    by (unfold l; rewrite byte_val_of_Z; lia).
  assert (Hck : 0 <= calculated <= 255).
  { unfold calculated. rewrite calculate_checksum_eq.
    pose proof (Z.mod_pos_bound
                  (arithmetic_sum (x55 :: xaa :: v :: c1 :: c2 :: l :: payload)) 256).
    lia. }
  rewrite (@parse_tuya_packet_framed x55 xaa v c1 c2 l payload (byte_of_Z calculated) [] HL).
  fold calculated. rewrite (byte_val_of_Z Hck), Z.eqb_refl. cbn [negb].
  rewrite Hunits. cbn [bind]. rewrite <- HL.
  unfold v; rewrite (byte_val_of_Z Hv).
  rewrite int_from_bytes_big_2. unfold c1, c2.
  rewrite !byte_val_of_Z.
  - do 3 f_equal. pose proof (Z.div_mod command 256). lia.
  - pose proof (Z.mod_pos_bound command 256). lia.
  - split; [apply Z.div_pos; lia|].
    assert (command / 256 < 256) by (apply Z.div_lt_upper_bound; lia). lia.
Qed.

(** With the checksum of the wire format, marker left out, no frame is
    accepted: the decoder calculates 255 more, modulo 256, than the
    frame carries. *)
Lemma wire_format_frame_never_accepted (version command : Z) (payload : bytes) :
  len payload <= 255 ->
  exists calculated,
    parse_tuya_packet (wire_format_frame version command payload)
    = Returned (ChecksumMismatch calculated
                  (wire_format_checksum version command payload)
                  (wire_format_frame version command payload))
    /\ calculated = (wire_format_checksum version command payload + 255) mod 256
    /\ calculated <> wire_format_checksum version command payload.
Proof.
  intros Hp. pose proof (len_nonneg payload) as Hp0.
  unfold wire_format_frame, wire_format_checksum, frame_with_checksum, header_fields,
    PACKET_MARKER.
  cbn [app].
  set (v := byte_of_Z version). set (c1 := byte_of_Z (command / 256)).
  set (c2 := byte_of_Z (command mod 256)). set (l := byte_of_Z (len payload)).
  set (S := arithmetic_sum (v :: c1 :: c2 :: l :: payload)).
  assert (HL : len payload = byte_val l)
    by (unfold l; rewrite byte_val_of_Z; lia).
  assert (Hrec : 0 <= S mod 256 <= 255)
    by (pose proof (Z.mod_pos_bound S 256); lia).
  assert (Hcalc : calculate_checksum (x55 :: xaa :: v :: c1 :: c2 :: l :: payload)
                  = (S mod 256 + 255) mod 256).
  { rewrite calculate_checksum_eq.
    change (arithmetic_sum (x55 :: xaa :: v :: c1 :: c2 :: l :: payload))
      with (85 + (170 + S)).
    rewrite Zplus_mod_idemp_l. f_equal. lia. }
  assert (Hne : (S mod 256 + 255) mod 256 <> S mod 256).
  { intros Heq.
    destruct (Z.lt_ge_cases (S mod 256) 1) as [Hz|Hpos].
    - assert (S mod 256 = 0) as Hs by lia. rewrite Hs in Heq. now vm_compute in Heq.
    - replace (S mod 256 + 255) with (S mod 256 - 1 + 1 * 256) in Heq by lia.
      rewrite Z.mod_add, Z.mod_small in Heq by lia. lia. }
  exists ((S mod 256 + 255) mod 256).
  rewrite (@parse_tuya_packet_framed x55 xaa v c1 c2 l payload (byte_of_Z (S mod 256)) [] HL).
  cbv zeta. rewrite Hcalc, (byte_val_of_Z Hrec).
  apply Z.eqb_neq in Hne. rewrite Hne. cbn [negb].
  apply Z.eqb_neq in Hne. repeat split; auto.
Qed.

(** C2 as stated fails when the correct checksum is the one of the
    wire format: the frame for version 3, command 7 and the one-byte
    payload 2B carries the VERSION-to-PAYLOAD sum 54 and is rejected,
    the decoder having calculated 53. *)
Lemma wire_format_frame_rejected :
  wire_format_frame 3 7 [x2b] = [x55; xaa; x03; x00; x07; x01; x2b; x36]
  /\ wire_format_checksum 3 7 [x2b] = 54
  /\ parse_tuya_packet (wire_format_frame 3 7 [x2b])
     = Returned (ChecksumMismatch 53 54 [x55; xaa; x03; x00; x07; x01; x2b; x36]).
Proof. repeat split. Qed.

(** C2, amended: round trip with the checksum that covers the marker.
    For every version byte, 2-byte command and payload of at most 255
    bytes, the frame laid out as marker, version, command big-endian,
    declared length, payload and the checksum byte equal to the sum of
    all bytes before it, the two marker bytes included, modulo 256,
    decodes to a Packet, not an error, whose version, command,
    data_length and data are the inputs, whose checksum is that sum and
    whose parsed data units are those of the payload. *)
Theorem build_then_parse (version command : Z) (payload : bytes) :
  0 <= version <= 255 ->
  0 <= command <= 65535 ->
  len payload <= 255 ->
  exists units,
    parse_data_units payload = Returned units
    /\ parse_tuya_packet (build_frame version command payload)
       = Returned (Packet version command (len payload) payload
                     (marker_inclusive_checksum version command payload) units)
    /\ marker_inclusive_checksum version command payload
       = (255 + arithmetic_sum (header_fields version command payload ++ payload))
           mod 256.
Proof.
  intros Hv Hc Hp.
  destruct (parse_data_units_total payload) as [units Hunits].
  exists units. split; [exact Hunits|]. split.
  - now apply parse_frame_with_marker_sum.
  - unfold marker_inclusive_checksum, PACKET_MARKER. cbn [app arithmetic_sum].
    f_equal. change (byte_val x55) with 85. change (byte_val xaa) with 170. lia.
Qed.

Lemma build_then_parse_witness :
  exists units,
    parse_data_units [x2b] = Returned units
    /\ parse_tuya_packet [x55; xaa; x03; x00; x07; x01; x2b; x35]
       = Returned (Packet 3 7 1 [x2b] 53 units)
    /\ 53 = (255 + 54) mod 256.
Proof.
  apply (@build_then_parse 3 7 [x2b]).
  - lia.
  - lia.
  - vm_compute. discriminate.
Defined.

(** C3: for every frame [parse_tuya_packet] accepts, every payload
    position and every replacement byte different from the byte there,
    decoding the frame with that one byte replaced returns the
    checksum-mismatch error, carrying the checksum calculated over the
    changed bytes and the unchanged received checksum, which differ. *)
Theorem payload_mutation_detected (packet_data : bytes)
    (version command data_length : Z) (data : bytes) (checksum : Z)
    (units : list data_point) (i : nat) (old new : byte) :
  parse_tuya_packet packet_data
    = Returned (Packet version command data_length data checksum units) ->
  nth_error data i = Some old ->
  new <> old ->
  let mutated := replace_at packet_data (6 + i) new in
  exists calculated,
    parse_tuya_packet mutated = Returned (ChecksumMismatch calculated checksum mutated)
    /\ calculated <> checksum
    /\ calculated = calculate_checksum (slice_to mutated (6 + data_length))
    /\ nth_error packet_data (6 + i) = Some old
    /\ slice mutated 6 (6 + data_length) = replace_at data i new.
Proof.
  intros Hp Hold Hnew mutated.
  apply parse_tuya_packet_accepts in Hp.
  destruct Hp as (m0 & m1 & v & c1 & c2 & l & ck & trailing
                  & -> & HL & _ & _ & -> & -> & Hck & _).
  destruct (nth_error_split _ _ Hold) as (d1 & d2 & -> & Hi). subst i.
  set (data' := d1 ++ new :: d2).
  assert (Hmut : mutated = m0 :: m1 :: v :: c1 :: c2 :: l :: data' ++ ck :: trailing).
  { unfold mutated, data'. cbn [Nat.add replace_at]. rewrite <- !app_assoc. cbn [app].
    now rewrite replace_at_app. }
  assert (HL' : len data' = byte_val l).
  { rewrite <- HL. unfold data'. rewrite !len_app, !len_cons. reflexivity. }
  exists (calculate_checksum (m0 :: m1 :: v :: c1 :: c2 :: l :: data')).
  assert (Hdiff : calculate_checksum (m0 :: m1 :: v :: c1 :: c2 :: l :: data')
                  <> byte_val ck).
  { rewrite <- Hck.
    apply (@checksum_detects_byte (m0 :: m1 :: v :: c1 :: c2 :: l :: d1) new old d2 Hnew). }
  rewrite Hmut.
  rewrite (@parse_tuya_packet_framed m0 m1 v c1 c2 l data' ck trailing HL').
  apply Z.eqb_neq in Hdiff. rewrite Hdiff. cbn [negb].
  apply Z.eqb_neq in Hdiff.
  split; [reflexivity|]. split; [exact Hdiff|].
  rewrite (@slice_to_app_eq _ _ ([m0; m1; v; c1; c2; l] ++ data') (ck :: trailing)),
          (@slice_middle_eq _ [m0; m1; v; c1; c2; l] data' (ck :: trailing));
    try (rewrite ?len_app, <- ?app_assoc, <- ?HL'; reflexivity).
  split; [reflexivity|]. split.
  - cbn [Nat.add nth_error]. rewrite <- app_assoc. cbn [app].
    now rewrite nth_error_app2, Nat.sub_diag by lia.
  - unfold data'. now rewrite replace_at_app.
Qed.

Lemma payload_mutation_detected_witness :
  exists calculated,
    parse_tuya_packet [x55; xaa; x03; x00; x07; x01; x2a; x35]
    = Returned (ChecksumMismatch calculated 53 [x55; xaa; x03; x00; x07; x01; x2a; x35])
    /\ calculated <> 53.
Proof.
  destruct (@payload_mutation_detected [x55; xaa; x03; x00; x07; x01; x2b; x35]
              3 7 1 [x2b] 53 [IncompleteDataUnit [x2b]] 0 x2b x2a)
    as (calculated & Hp & Hne & _).
  - reflexivity.
  - reflexivity.
  - discriminate.
  - exists calculated. split; [exact Hp | exact Hne].
Defined.

(** ** Searching for the marker *)

Lemma starts_with_app (sub post : bytes) : starts_with sub (sub ++ post) = true.
Proof.
  induction sub as [|s sub IH]; cbn [app starts_with]; [reflexivity|].
  rewrite IH, andb_true_r. now apply Byte.byte_dec_lb.
Qed.

Lemma starts_with_inv (sub l : bytes) :
  starts_with sub l = true -> exists post, l = sub ++ post.
Proof.
  revert l; induction sub as [|s sub IH]; intros l H.
  - now exists l.
  - destruct l as [|x l]; cbn [starts_with] in H; [discriminate|].
    apply andb_true_iff in H. destruct H as [Hx Hl].
    apply Byte.byte_dec_bl in Hx. subst x.
    destruct (IH l Hl) as [post ->]. now exists post.
Qed.

Lemma starts_with_longer (sub l more : bytes) :
  starts_with sub l = true -> starts_with sub (l ++ more) = true.
Proof.
  intros H. destruct (starts_with_inv _ _ H) as [post ->].
  rewrite <- app_assoc. apply starts_with_app.
Qed.

(** [find] returns -1 exactly when the subsequence does not occur;
    otherwise it returns where the bytes free of it end and its first
    occurrence starts. *)
Lemma find_from_split (sub l : bytes) (i : Z) :
  sub <> [] ->
  if contains sub l
  then exists pre post,
         l = pre ++ sub ++ post /\ find_from sub l i = i + len pre
         /\ contains sub pre = false
  else find_from sub l i = -1.
Proof.
  intros Hsub. revert i; induction l as [|x l IH]; intros i.
  - destruct sub as [|s sub]; [congruence|]. reflexivity.
  - cbn [contains find_from].
    destruct (starts_with sub (x :: l)) eqn:Hs; cbn [orb].
    + destruct (starts_with_inv _ _ Hs) as [post Hpost].
      exists [], post. split; [exact Hpost|]. split.
      * change (len (@nil byte)) with 0. lia.
      * destruct sub; [congruence | reflexivity].
    + specialize (IH (i + 1)). destruct (contains sub l); [|exact IH].
      destruct IH as (pre & post & -> & Hfind & Hpre).
      exists (x :: pre), post. split; [reflexivity|]. split.
      * rewrite Hfind, len_cons. lia.
      * cbn [contains]. rewrite Hpre, orb_false_r.
        destruct (starts_with sub (x :: pre)) eqn:Hs'; [|reflexivity].
        apply (@starts_with_longer sub (x :: pre) (sub ++ post)) in Hs'.
        cbn [app] in Hs'. congruence.
Qed.

Lemma find_marker (buffer0 : bytes) :
  if contains PACKET_MARKER buffer0
  then exists pre post,
         buffer0 = pre ++ PACKET_MARKER ++ post
         /\ find buffer0 PACKET_MARKER = len pre
         /\ contains PACKET_MARKER pre = false
  else find buffer0 PACKET_MARKER = -1.
Proof.
  pose proof (@find_from_split PACKET_MARKER buffer0 0) as H.
  unfold find. destruct (contains PACKET_MARKER buffer0).
  - destruct H as (pre & post & H1 & H2 & H3); [discriminate|].
    exists pre, post. repeat split; auto.
  - apply H. discriminate.
Qed.

Lemma parse_tuya_packet_total (packet_data : bytes) :
  exists r, parse_tuya_packet packet_data = Returned r.
Proof.
  destruct (Z.lt_ge_cases (len packet_data) 7) as [Hs|H7].
  { rewrite parse_tuya_packet_short by exact Hs. eexists; reflexivity. }
  destruct (@frame_layout packet_data H7)
    as (m0 & m1 & v & c1 & c2 & l & tail & -> & Hlen & Hfit).
  destruct (Z.lt_ge_cases (len (m0 :: m1 :: v :: c1 :: c2 :: l :: tail))
                          (6 + byte_val l + 1)) as [Hshort|Hroom].
  { rewrite parse_tuya_packet_short_for_length by assumption. eexists; reflexivity. }
  destruct (Hfit Hroom) as (data & ck & trailing & -> & HL).
  rewrite (@parse_tuya_packet_framed m0 m1 v c1 c2 l data ck trailing HL).
  destruct (negb _); [eexists; reflexivity|].
  destruct (parse_data_units_total data) as [units ->]. eexists; reflexivity.
Qed.

(** ** The frame extraction loop *)

Lemma packet_payload_in_body (body : bytes) (r : packet_result) :
  parse_tuya_packet (PACKET_MARKER ++ body) = Returned r ->
  forall version command data_length data checksum units,
    r = Packet version command data_length data checksum units ->
    data = slice body 4 (4 + data_length).
Proof.
  intros Hp version command data_length data checksum units ->.
  apply parse_tuya_packet_accepts in Hp.
  destruct Hp as (m0 & m1 & v & c1 & c2 & l & ck & trailing
                  & Hframe & HL & _ & _ & -> & _).
  unfold PACKET_MARKER in Hframe. cbn [app] in Hframe.
  injection Hframe as _ _ ->.
  symmetry. apply (@slice_middle_eq _ [v; c1; c2; l] data (ck :: trailing)).
  - reflexivity.
  - reflexivity.
  - rewrite HL. reflexivity.
Qed.

(** One pass of the extraction loop, for a buffer whose first marker
    comes right after [pre]. *)
Lemma extract_body_spec (st : reader) (pre post : bytes) :
  buffer st = pre ++ PACKET_MARKER ++ post ->
  find (buffer st) PACKET_MARKER = len pre ->
  exists body rest r,
    post = body ++ rest
    /\ (rest = [] \/ exists post', rest = PACKET_MARKER ++ post')
    /\ frame_ok (body, r)
    /\ extract_body st
       = Returned (mkReader rest (packet_count st + 1)
                     (printed st ++ orphan_event pre
                        ++ frame_events (packet_count st) [(body, r)])).
Proof.
  intros Hbuf Hfind. unfold extract_body. rewrite Hfind, Hbuf.
  match goal with
  | |- context [if len pre >? 0 then ?a else ?b] =>
    replace (if len pre >? 0 then a else b)
      with (printed st ++ orphan_event pre, PACKET_MARKER ++ post)
  end.
  2:{ unfold orphan_event. destruct (Z.gtb_spec (len pre) 0) as [Hpos|Hzero].
      - now rewrite slice_to_app, slice_from_app.
      - destruct pre as [|p pre]; [now rewrite app_nil_r|].
        rewrite len_cons in Hzero. pose proof (len_nonneg pre). lia. }
  cbv beta iota zeta. rewrite slice_from_app.
  pose proof (find_marker post) as Hnext.
  destruct (contains PACKET_MARKER post) eqn:Hin.
  - destruct Hnext as (body & post' & -> & -> & Hfree).
    pose proof (len_nonneg body).
    destruct (Z.eqb_spec (len body) (-1)) as [|_]; [lia|].
    rewrite slice_to_app, slice_from_app.
    destruct (parse_tuya_packet_total (PACKET_MARKER ++ body)) as [r Hr].
    rewrite Hr. cbn [bind].
    exists body, (PACKET_MARKER ++ post'), r. split; [reflexivity|].
    split; [right; now exists post'|]. split.
    + split; [exact Hfree|]. split; [exact Hr|].
      now apply packet_payload_in_body.
    + cbn [frame_events]. unfold frame_bytes. cbn [fst snd].
      rewrite <- !app_assoc. reflexivity.
  - rewrite Hnext. cbn [Z.eqb Pos.eqb].
    destruct (parse_tuya_packet_total (PACKET_MARKER ++ post)) as [r Hr].
    rewrite Hr. cbn [bind].
    exists post, [], r. split; [now rewrite app_nil_r|].
    split; [now left|]. split.
    + split; [exact Hin|]. split; [exact Hr|].
      now apply packet_payload_in_body.
    + cbn [frame_events]. unfold frame_bytes. cbn [fst snd].
      rewrite <- !app_assoc. reflexivity.
Qed.

Lemma extract_loop_no_marker (fuel : nat) (st : reader) :
  contains PACKET_MARKER (buffer st) = false -> extract_loop fuel st = Returned st.
Proof. intros H. destruct fuel; cbn [extract_loop]; now rewrite H. Qed.

Lemma contains_marker_first (post : bytes) :
  contains PACKET_MARKER (PACKET_MARKER ++ post) = true
  /\ find (PACKET_MARKER ++ post) PACKET_MARKER = 0.
Proof. split; reflexivity. Qed.

(** The loop on a buffer that holds a marker: the bytes before the
    first marker are printed as the diagnostic, everything from the
    first marker on is cut into frames at the markers, each handed to
    the decoder, and the buffer ends empty. *)
Lemma extract_loop_spec (fuel : nat) :
  forall st : reader,
  (length (buffer st) <= fuel)%nat ->
  contains PACKET_MARKER (buffer st) = true ->
  exists orphan frames,
    buffer st = orphan ++ flat_map frame_bytes frames
    /\ find (buffer st) PACKET_MARKER = len orphan
    /\ contains PACKET_MARKER orphan = false
    /\ Forall frame_ok frames
    /\ extract_loop fuel st
       = Returned (mkReader [] (packet_count st + len frames)
                     (printed st ++ orphan_event orphan
                        ++ frame_events (packet_count st) frames)).
Proof.
  induction fuel as [|fuel IH]; intros st Hfuel Hin.
  { destruct (buffer st); [discriminate | cbn in Hfuel; lia]. }
  cbn [extract_loop]. rewrite Hin.
  pose proof (find_marker (buffer st)) as Hfirst. rewrite Hin in Hfirst.
  destruct Hfirst as (orphan & post & Hbuf & Hfind & Hfree).
  destruct (@extract_body_spec st orphan post Hbuf Hfind)
    as (body & rest & r & -> & Hrest & Hok & ->).
  cbn [bind]. exists orphan.
  destruct Hrest as [->|[post' ->]].
  - exists [(body, r)]. rewrite extract_loop_no_marker by reflexivity.
    cbn [flat_map]. unfold frame_bytes at 1. cbn [fst].
    rewrite app_nil_r in *. change (len [(body, r)]) with 1.
    repeat split; auto.
  - destruct (@contains_marker_first post') as [Hin' Hfind'].
    set (st' := mkReader (PACKET_MARKER ++ post') (packet_count st + 1)
                  (printed st ++ orphan_event orphan
                     ++ frame_events (packet_count st) [(body, r)])).
    destruct (IH st') as (orphan' & frames & Hbuf' & Hfind'' & _ & Hoks & ->).
    { cbn [buffer st']. rewrite Hbuf, !length_app in Hfuel.
      rewrite length_app. cbn [length PACKET_MARKER] in *. lia. }
    { exact Hin'. }
    cbn [buffer st'] in Hbuf', Hfind''. rewrite Hfind' in Hfind''.
    assert (orphan' = []) as ->.
    { destruct orphan'; [reflexivity|]. rewrite len_cons in Hfind''.
      pose proof (len_nonneg orphan'). lia. }
    cbn [app] in Hbuf'.
    exists ((body, r) :: frames). cbn [flat_map]. unfold frame_bytes at 1. cbn [fst].
    rewrite <- Hbuf', <- app_assoc. split; [exact Hbuf|]. split; [exact Hfind|].
    split; [exact Hfree|]. split; [constructor; assumption|].
    cbn [st' packet_count printed]. rewrite len_cons.
    change (orphan_event []) with (@nil event). cbn [app frame_events].
    f_equal. f_equal; [lia|].
    rewrite <- !app_assoc. reflexivity.
Qed.

Lemma printed_bytes_app (e1 e2 : list event) :
  printed_bytes (e1 ++ e2) = printed_bytes e1 ++ printed_bytes e2.
Proof. unfold printed_bytes. apply flat_map_app. Qed.

Lemma printed_bytes_orphan (orphan : bytes) :
  printed_bytes (orphan_event orphan) = orphan.
Proof.
  unfold orphan_event. destruct (Z.gtb_spec (len orphan) 0) as [Hpos|Hzero].
  - cbn. apply app_nil_r.
  - destruct orphan as [|x orphan]; [reflexivity|].
    rewrite len_cons in Hzero. pose proof (len_nonneg orphan). lia.
Qed.

Lemma printed_bytes_frames (frames : list frame) :
  forall count, printed_bytes (frame_events count frames) = flat_map frame_bytes frames.
Proof.
  induction frames as [|f frames IH]; intros count; [reflexivity|].
  cbn [frame_events flat_map]. unfold printed_bytes in *. cbn [flat_map event_bytes].
  cbn [app]. now rewrite IH.
Qed.

(** One chunk: what is printed for it and what stays buffered are, in
    order, the bytes buffered before followed by the chunk. *)
Lemma on_chunk_conserves (st : reader) (chunk : bytes) :
  contains PACKET_MARKER (buffer st) = false ->
  exists st',
    on_chunk st chunk = Returned st'
    /\ contains PACKET_MARKER (buffer st') = false
    /\ printed_bytes (printed st') ++ buffer st'
       = printed_bytes (printed st) ++ buffer st ++ chunk.
Proof.
  intros Hclean. unfold on_chunk. destruct chunk as [|c chunk].
  { exists st. rewrite app_nil_r. auto. }
  set (st0 := mkReader (buffer st ++ c :: chunk) (packet_count st) (printed st)).
  change (buffer st ++ c :: chunk) with (buffer st0).
  destruct (contains PACKET_MARKER (buffer st0)) eqn:Hin.
  - destruct (@extract_loop_spec (length (buffer st0)) st0 (Nat.le_refl _) Hin)
      as (orphan & frames & Hbuf & _ & _ & _ & ->).
    eexists. split; [reflexivity|]. cbn [buffer printed]. split; [reflexivity|].
    rewrite !printed_bytes_app, printed_bytes_orphan, printed_bytes_frames.
    rewrite app_nil_r, Hbuf. cbn [st0 printed]. reflexivity.
  - rewrite extract_loop_no_marker by exact Hin.
    exists st0. split; [reflexivity|]. split; [exact Hin|]. reflexivity.
Qed.

Lemma read_loop_conserves (chunks : list bytes) :
  forall st : reader,
  contains PACKET_MARKER (buffer st) = false ->
  exists st',
    read_loop chunks st = Returned st'
    /\ contains PACKET_MARKER (buffer st') = false
    /\ printed_bytes (printed st') ++ buffer st'
       = printed_bytes (printed st) ++ buffer st ++ concat chunks.
Proof.
  induction chunks as [|chunk chunks IH]; intros st Hclean; cbn [read_loop concat].
  - exists st. rewrite app_nil_r. auto.
  - destruct (@on_chunk_conserves st chunk Hclean) as (st1 & -> & Hclean1 & Hbytes1).
    cbn [bind]. destruct (IH st1 Hclean1) as (st' & -> & Hclean' & Hbytes').
    exists st'. split; [reflexivity|]. split; [exact Hclean'|].
    rewrite Hbytes', app_assoc, Hbytes1, <- !app_assoc. reflexivity.
Qed.

(** ** Claim about the frame extraction loop *)

(** C8: the extraction loop always returns.  On a buffer without a
    marker it changes nothing.  On a buffer with a marker, the bytes
    before the first marker occurrence are printed once, as the
    "unexpected data" diagnostic, and are in no candidate frame: the
    candidate frames are exactly the buffer from the first marker on,
    cut at the marker occurrences, each one the marker followed by
    marker-free bytes, each one handed to [parse_tuya_packet]; the
    payload of every decoded Packet is a slice of its own frame body.
    Over a whole stream of chunks, every byte read is, in order, in
    exactly one diagnostic or one candidate frame, or still buffered. *)
Theorem orphans_never_framed (st : reader) (chunks : list bytes) :
  (exists st',
     extract_loop (length (buffer st)) st = Returned st'
     /\ if contains PACKET_MARKER (buffer st)
        then exists orphan frames,
               orphan = slice_to (buffer st) (find (buffer st) PACKET_MARKER)
               /\ contains PACKET_MARKER orphan = false
               /\ flat_map frame_bytes frames
                  = slice_from (buffer st) (find (buffer st) PACKET_MARKER)
               /\ Forall frame_ok frames
               /\ st' = mkReader [] (packet_count st + len frames)
                          (printed st ++ orphan_event orphan
                             ++ frame_events (packet_count st) frames)
        else st' = st)
  /\ (exists final,
        read_and_hexdump_packets chunks = Returned final
        /\ contains PACKET_MARKER (buffer final) = false
        /\ printed_bytes (printed final) ++ buffer final = concat chunks).
Proof.
  split.
  - destruct (contains PACKET_MARKER (buffer st)) eqn:Hin.
    + destruct (@extract_loop_spec (length (buffer st)) st (Nat.le_refl _) Hin)
        as (orphan & frames & Hbuf & Hfind & Hfree & Hoks & ->).
      eexists. split; [reflexivity|]. exists orphan, frames.
      rewrite Hfind. rewrite Hbuf at 1 2.
      rewrite slice_to_app, slice_from_app. repeat split; auto.
    + exists st. split; [now apply extract_loop_no_marker | reflexivity].
  - unfold read_and_hexdump_packets.
    destruct (@read_loop_conserves chunks (mkReader [] 0 []) eq_refl)
      as (final & Hrun & Hclean & Hbytes).
    exists final. split; [exact Hrun|]. split; [exact Hclean|]. exact Hbytes.
Qed.

(** Two back-to-back frames after two orphan bytes, in one chunk. *)
Example two_frames_after_orphans :
  read_and_hexdump_packets
    [[x01; x02; x55; xaa; x01; x00; x02; x00; x02; x55; xaa; x01; x00; x02; x00; x03]]
  = Returned (mkReader [] 2
      [UnexpectedData [x01; x02];
       RawPacket 1 [x55; xaa; x01; x00; x02; x00; x02];
       ParsedPacket 1 (Packet 1 2 0 [] 2 []);
       RawPacket 2 [x55; xaa; x01; x00; x02; x00; x03];
       ParsedPacket 2 (ChecksumMismatch 2 3 [x55; xaa; x01; x00; x02; x00; x03])]).
Proof. reflexivity. Qed.

(** ** Further properties of the data-unit decoder *)

Lemma byte_of_Z_val (b : byte) : byte_of_Z (byte_val b) = b.
Proof.
  pose proof (byte_val_range b) as Hb. unfold byte_of_Z.
  rewrite Z.mod_small by lia. unfold byte_val.
  rewrite N2Z.id, Byte.of_to_N. reflexivity.
Qed.

Lemma int_from_bytes_big_2_split (c d : byte) :
  int_from_bytes_big [c; d] / 256 = byte_val c
  /\ int_from_bytes_big [c; d] mod 256 = byte_val d.
Proof.
  rewrite int_from_bytes_big_2.
  pose proof (byte_val_range c); pose proof (byte_val_range d).
  split.
  - rewrite Z.div_add_l by lia. rewrite Z.div_small by lia. lia.
  - rewrite Z.add_comm, Z.mod_add by lia. apply Z.mod_small; lia.
Qed.

(** The four bytes a decoded header came from. *)
Lemma struct_unpack_BBH_inv (buf : bytes) (dp_id dp_type dp_length : Z) :
  struct_unpack_BBH buf = Some (dp_id, dp_type, dp_length) ->
  buf = [byte_of_Z dp_id; byte_of_Z dp_type;
         byte_of_Z (dp_length / 256); byte_of_Z (dp_length mod 256)].
Proof.
  destruct buf as [|a [|b [|c [|d [|e buf]]]]]; cbn [struct_unpack_BBH];
    intros H; try discriminate.
  injection H as <- <- <-.
  destruct (int_from_bytes_big_2_split c d) as [-> ->].
  now rewrite !byte_of_Z_val.
Qed.

Lemma len_slice_from {A : Type} (l : list A) (i : Z) :
  0 <= i -> i <= len l -> len (slice_from l i) = len l - i.
Proof.
  intros Hi Hl. rewrite slice_from_nonneg by assumption.
  unfold len in *. rewrite length_skipn. lia.
Qed.

Lemma slice_from_end {A : Type} (l : list A) : slice_from l (len l) = [].
Proof.
  pose proof (len_nonneg l). rewrite slice_from_nonneg by lia.
  rewrite to_nat_len. apply skipn_all.
Qed.

(** A slice followed by the rest of the list from where it ends. *)
Lemma slice_then_rest {A : Type} (l : list A) (i j : Z) :
  0 <= i -> i <= j -> j <= len l ->
  slice l i j ++ slice_from l j = slice_from l i.
Proof.
  intros Hi Hij Hj.
  destruct (@split_at _ l i) as (pre & post & -> & Hpre); try lia.
  rewrite len_app in Hj.
  destruct (@split_at _ post (j - i)) as (mid & rest & -> & Hmid); try lia.
  rewrite (@slice_middle_eq _ pre mid rest (pre ++ mid ++ rest) i j) by (auto; lia).
  rewrite <- Hpre, (slice_from_app pre (mid ++ rest)).
  rewrite app_assoc.
  replace j with (len (pre ++ mid)) by (rewrite len_app; lia).
  now rewrite slice_from_app.
Qed.

(** A pass that continues read a header and a whole value, and decoded
    the value. *)
Lemma body_continue_inv (data : bytes) (offset offset' : Z)
    (parsed_dps parsed_dps' : list data_point) :
  parse_data_units_body data offset parsed_dps = Returned (Continue offset' parsed_dps') ->
  exists dp_id dp_type dp_length dv,
    struct_unpack_BBH (slice data offset (offset + 4)) = Some (dp_id, dp_type, dp_length)
    /\ offset + 4 <= len data
    /\ offset' = offset + 4 + dp_length /\ offset' <= len data
    /\ decode_dp_value dp_type dp_length (slice data (offset + 4) offset') = Returned dv
    /\ parsed_dps'
       = parsed_dps ++ [DataUnit dp_id dp_type dp_length dv (slice data (offset + 4) offset')].
Proof.
  unfold parse_data_units_body.
  destruct (Z.gtb_spec (offset + 4) (len data)); [discriminate|].
  destruct (struct_unpack_BBH _) as [[[i t] L]|] eqn:Hh; [|discriminate].
  cbv zeta.
  destruct (Z.gtb_spec (offset + 4 + L) (len data)); [discriminate|].
  destruct (decode_dp_value _ _ _) as [dv| |] eqn:Hdv; cbn [bind]; try discriminate.
  intros [= <- <-]. exists i, t, L, dv. repeat split; auto.
Qed.

(** The loop, record by record: every record it appends is well formed
    and the records stand, in order, for the bytes from the cursor to
    the end of the payload. *)
Lemma loop_records (fuel : nat) :
  forall (data : bytes) (offset : Z) (parsed_dps : list data_point),
  0 <= offset <= len data ->
  len data - offset <= Z.of_nat fuel ->
  exists rs,
    parse_data_units_loop fuel data offset parsed_dps = Returned (parsed_dps ++ rs)
    /\ Forall record_ok rs
    /\ flat_map wire_bytes rs = slice_from data offset.
Proof.
  induction fuel as [|fuel IH]; intros data offset parsed_dps Hoff Hfuel;
    cbn [parse_data_units_loop]; destruct (Z.ltb_spec offset (len data)) as [Hlt|Hge];
    try lia.
  1,3: exists []; rewrite app_nil_r; repeat split; auto;
       assert (offset = len data) as -> by lia;
       now rewrite slice_from_end.
  destruct (@body_cases data offset parsed_dps) as
    [[Hshort Hb] | (i & t & L & Hroom & Hhdr & HL & [[Hcut Hb] | (Hfit & dv & Hlv & Hb)])];
    try lia; rewrite Hb; cbn [bind].
  - eexists [_]. split; [reflexivity|]. split.
    + constructor; [|constructor]. cbn [record_ok]. rewrite len_slice_from by lia. lia.
    + cbn [flat_map wire_bytes]. apply app_nil_r.
  - eexists [_]. split; [reflexivity|]. split.
    + constructor; [|constructor]. cbn [record_ok]. rewrite len_slice_from by lia.
      split; [lia|].
      replace (slice (slice_from data offset) 0 4) with (slice data offset (offset + 4));
        [exact Hhdr|].
      destruct (@split_at _ data offset) as (pre & post & -> & Hpre); try lia.
      rewrite <- Hpre, slice_from_app.
      replace (len pre) with (len pre + 0) at 1 by lia.
      apply slice_shift; lia.
    + cbn [flat_map wire_bytes]. apply app_nil_r.
  - apply body_continue_inv in Hb.
    destruct Hb as (i' & t' & L' & dv' & Hhdr' & _ & _ & _ & Hdv & Hacc).
    rewrite Hhdr in Hhdr'. injection Hhdr' as <- <- <-.
    apply app_inv_head in Hacc. injection Hacc as <-.
    destruct (IH data (offset + 4 + L)
                (parsed_dps ++ [DataUnit i t L dv (slice data (offset + 4) (offset + 4 + L))]))
      as (rs & -> & Hok & Hwire); try lia.
    eexists (_ :: rs). rewrite <- app_assoc. split; [reflexivity|]. split.
    + constructor; [|exact Hok]. cbn [record_ok].
      pose proof (struct_unpack_BBH_range _ Hhdr). intuition.
    + cbn [flat_map wire_bytes]. rewrite Hwire.
      rewrite <- (struct_unpack_BBH_inv _ Hhdr), <- app_assoc.
      rewrite slice_then_rest by lia. apply slice_then_rest; lia.
Qed.

Lemma slice_from_start {A : Type} (l : list A) : slice_from l 0 = l.
Proof.
  pose proof (len_nonneg l). now rewrite slice_from_nonneg by lia.
Qed.

(** X1: [parse_data_units] loses no byte of the payload.  The header and
    raw value of every decoded unit, followed by the [raw_data] of the
    truncation record when there is one, are the payload, byte for byte
    and in order. *)
Theorem parse_data_units_keeps_every_byte (data : bytes) :
  exists rs,
    parse_data_units data = Returned rs
    /\ flat_map wire_bytes rs = data.
Proof.
  pose proof (len_nonneg data) as Hlen.
  destruct (@loop_records (length data) data 0 []) as (rs & Hrun & _ & Hwire).
  - lia.
  - unfold len. lia.
  - exists rs. split; [exact Hrun|]. now rewrite Hwire, slice_from_start.
Qed.

(** X2: every record [parse_data_units] returns is well formed.  A
    decoded unit has identifier and type in [0, 255], a declared length
    in [0, 65535] equal to the length of its raw value, and its decoded
    value is what the type chain gives for that raw value; "Incomplete
    data unit" carries 1 to 3 bytes; "Incomplete data unit value"
    carries the 4 header bytes it reports and fewer value bytes than
    declared; "Failed to unpack data unit header" never occurs. *)
Theorem parse_data_units_records_well_formed (data : bytes) :
  exists rs,
    parse_data_units data = Returned rs
    /\ Forall record_ok rs.
Proof.
  pose proof (len_nonneg data) as Hlen.
  destruct (@loop_records (length data) data 0 []) as (rs & Hrun & Hok & _).
  - lia.
  - unfold len. lia.
  - exists rs. split; [exact Hrun | exact Hok].
Qed.

Lemma encode_unit_length_bytes (value : bytes) :
  len value <= 65535 ->
  len value
  = int_from_bytes_big [byte_of_Z (len value / 256); byte_of_Z (len value mod 256)].
Proof.
  intros H. pose proof (len_nonneg value).
  rewrite int_from_bytes_big_2, !byte_val_of_Z.
  - pose proof (Z.div_mod (len value) 256). lia.
  - pose proof (Z.mod_pos_bound (len value) 256). lia.
  - split; [apply Z.div_pos; lia|].
    assert (len value / 256 < 256) by (apply Z.div_lt_upper_bound; lia). lia.
Qed.

(** X3: round trip for data units.  A payload laid out as complete
    units, each value at most 65535 bytes long, followed by any bytes
    [rest], decodes to one record per unit, in order, each with the
    unit's identifier, type, length and raw value and the decoded value
    of its type, followed by what [rest] decodes to alone. *)
Theorem encode_units_then_parse (us : list (byte * byte * bytes)) (rest : bytes) :
  Forall (fun u => len (snd u) <= 65535) us ->
  exists rs following,
    Forall2 decodes_to us rs
    /\ parse_data_units rest = Returned following
    /\ parse_data_units (flat_map encode_unit us ++ rest) = Returned (rs ++ following).
Proof.
  induction 1 as [|[[dp_id dp_type] value] us Hu _ IH].
  - destruct (parse_data_units_total rest) as [following Hrest].
    exists [], following. split; [constructor|]. split; exact Hrest.
  - destruct IH as (rs & following & Hrs & Hrest & Hall).
    cbn [snd] in Hu. cbn [flat_map encode_unit]. rewrite <- !app_assoc. cbn [app].
    destruct (@parse_data_units_cons dp_id dp_type (byte_of_Z (len value / 256))
                (byte_of_Z (len value mod 256)) value (flat_map encode_unit us ++ rest)
                (@encode_unit_length_bytes value Hu))
      as (dv & following' & Hdv & Hrest' & Hcons).
    rewrite Hall in Hrest'. injection Hrest' as <-.
    exists (DataUnit (byte_val dp_id) (byte_val dp_type) (len value) dv value :: rs), following.
    split; [|split; [exact Hrest | exact Hcons]].
    constructor; [|exact Hrs]. cbn [decodes_to]. now exists dv.
Qed.

Lemma encode_units_then_parse_witness :
  exists rs following,
    Forall2 decodes_to [(x01, x02, [x00; x00; x00; x7b]); (x02, x01, [x01])] rs
    /\ parse_data_units [x09] = Returned following
    /\ parse_data_units
         (flat_map encode_unit [(x01, x02, [x00; x00; x00; x7b]); (x02, x01, [x01])]
            ++ [x09])
       = Returned (rs ++ following).
Proof.
  apply (@encode_units_then_parse
           [(x01, x02, [x00; x00; x00; x7b]); (x02, x01, [x01])] [x09]).
  repeat constructor; vm_compute; discriminate.
Defined.

(** ** Further properties of the value decoding *)

Lemma bytes_eqb_eq (a b : bytes) : bytes_eqb a b = true <-> a = b.
Proof.
  revert b; induction a as [|x a IH]; intros [|y b]; cbn [bytes_eqb];
    try (split; [discriminate | congruence]); [tauto|].
  rewrite andb_true_iff, IH. split.
  - intros [Hx ->]. apply Byte.byte_dec_bl in Hx. now subst.
  - intros [= -> ->]. split; [now apply Byte.byte_dec_lb | reflexivity].
Qed.

Lemma int_from_bytes_big_4 (a b c d : byte) :
  int_from_bytes_big [a; b; c; d]
  = ((byte_val a * 256 + byte_val b) * 256 + byte_val c) * 256 + byte_val d.
Proof. unfold int_from_bytes_big. cbn [fold_left]. lia. Qed.

(** X4: the numeric types.  Four value bytes read as Integer32 (type 2)
    give a signed value in [-2^31, 2^31 - 1], read as Bitmap (type 5)
    the unsigned big-endian value in [0, 2^32 - 1]; the two agree modulo
    2^32 and the signed one is negative exactly when the first byte is
    at least 0x80.  One value byte read as Enum (type 4) gives that
    byte, in [0, 255]. *)
Theorem decode_numeric_values (a b c d : byte) :
  let u := ((byte_val a * 256 + byte_val b) * 256 + byte_val c) * 256 + byte_val d in
  exists n,
    decode_dp_value 2 4 [a; b; c; d] = Returned (VInt n)
    /\ decode_dp_value 5 4 [a; b; c; d] = Returned (VInt u)
    /\ decode_dp_value 4 1 [a] = Returned (VInt (byte_val a))
    /\ 0 <= u < 2 ^ 32
    /\ - 2 ^ 31 <= n < 2 ^ 31
    /\ n mod 2 ^ 32 = u
    /\ (n < 0 <-> 128 <= byte_val a).
Proof.
  intros u.
  pose proof (byte_val_range a); pose proof (byte_val_range b);
    pose proof (byte_val_range c); pose proof (byte_val_range d).
  assert (Hu : int_from_bytes_big [a; b; c; d] = u) by apply int_from_bytes_big_4.
  assert (Hrange : 0 <= u < 2 ^ 32) by (unfold u; lia).
  exists (if u <? 2 ^ 31 then u else u - 2 ^ 32).
  split; [|split; [|split; [|split; [exact Hrange|]]]].
  - unfold decode_dp_value, struct_unpack_i, struct_unpack_I.
    change (2 =? 0) with false. change (2 =? 1) with false.
    change (2 =? 2) with true. change (4 =? 4) with true. cbv beta match.
    now rewrite Hu.
  - unfold decode_dp_value, struct_unpack_I.
    change (5 =? 0) with false. change (5 =? 1) with false.
    change (5 =? 2) with false. change (5 =? 3) with false.
    change (5 =? 4) with false. change (5 =? 5) with true.
    change (4 =? 4) with true. cbv beta match.
    now rewrite Hu.
  - unfold decode_dp_value, int_from_bytes_big.
    change (4 =? 0) with false. change (4 =? 1) with false.
    change (4 =? 2) with false. change (4 =? 3) with false.
    change (4 =? 4) with true. change (1 =? 1) with true. cbv beta match.
    cbn [fold_left]. reflexivity.
  - destruct (Z.ltb_spec u (2 ^ 31)) as [Hlt|Hge].
    + split; [lia|]. split; [apply Z.mod_small; lia|]. unfold u in *. lia.
    + split; [lia|]. split.
      * replace (u - 2 ^ 32) with (u + (-1) * 2 ^ 32) by lia.
        rewrite Z.mod_add by lia. apply Z.mod_small; lia.
      * unfold u in *. lia.
Qed.

(** X5: the Boolean type is a lenient equality test.  For every raw
    value and declared length, type 1 decodes to a boolean, which is
    True exactly when the raw value is the single byte 01; an empty
    value, a longer value and any other byte give False, never an
    error. *)
Theorem decode_boolean_lenient (dp_length : Z) (dp_value : bytes) :
  exists b,
    decode_dp_value 1 dp_length dp_value = Returned (VBool b)
    /\ (b = true <-> dp_value = [x01]).
Proof.
  exists (bytes_eqb dp_value [x01]). split.
  - reflexivity.
  - apply bytes_eqb_eq.
Qed.

(** X6: when the decoded value is the error dictionary.  It is one
    exactly for type 2 or 5 with a declared length other than 4, type 4
    with a declared length other than 1, and every type outside 0..5;
    and the error dictionary always carries the raw value unchanged. *)
Theorem decode_error_exactly (dp_type dp_length : Z) (dp_value : bytes) :
  let wrong :=
    (dp_type = 2 /\ dp_length <> 4) \/ (dp_type = 4 /\ dp_length <> 1)
    \/ (dp_type = 5 /\ dp_length <> 4) \/ dp_type < 0 \/ 5 < dp_type in
  (forall e raw_value,
     decode_dp_value dp_type dp_length dp_value = Returned (VError e raw_value) ->
     raw_value = dp_value /\ wrong)
  /\ (wrong -> exists e, decode_dp_value dp_type dp_length dp_value
                         = Returned (VError e dp_value)).
Proof.
  intros wrong. unfold wrong, decode_dp_value.
  destruct (Z.eqb_spec dp_type 0); [split; [discriminate | lia]|].
  destruct (Z.eqb_spec dp_type 1); [split; [discriminate | lia]|].
  destruct (Z.eqb_spec dp_type 2).
  { destruct (Z.eqb_spec dp_length 4).
    - split; [destruct (struct_unpack_i dp_value); discriminate | lia].
    - split; [intros err raw [= <- <-]; split; [reflexivity | lia]|].
      intros _. eexists; reflexivity. }
  destruct (Z.eqb_spec dp_type 3); [split; [discriminate | lia]|].
  destruct (Z.eqb_spec dp_type 4).
  { destruct (Z.eqb_spec dp_length 1).
    - split; [discriminate | lia].
    - split; [intros err raw [= <- <-]; split; [reflexivity | lia]|].
      intros _. eexists; reflexivity. }
  destruct (Z.eqb_spec dp_type 5).
  { destruct (Z.eqb_spec dp_length 4).
    - split; [destruct (struct_unpack_I dp_value); discriminate | lia].
    - split; [intros err raw [= <- <-]; split; [reflexivity | lia]|].
      intros _. eexists; reflexivity. }
  split; [intros err raw [= <- <-]; split; [reflexivity | lia]|].
  intros _. eexists; reflexivity.
Qed.

Lemma utf8_decode_ignore_length (n : nat) :
  forall bs : bytes,
  (length bs <= n)%nat ->
  (length (utf8_decode_ignore bs) <= length bs)%nat.
Proof.
  induction n as [|n IH]; intros bs Hn.
  { destruct bs; [cbn; lia | cbn in Hn; lia]. }
  destruct bs as [|b0 rest]; [cbn; lia|].
  cbn [utf8_decode_ignore]. cbv zeta.
  repeat match goal with
  | |- context [if ?c then _ else _] => destruct c
  | |- context [match ?l with [] => _ | _ :: _ => _ end] => destruct l
  end;
  cbn [length] in *;
  repeat match goal with
  | |- context [utf8_decode_ignore ?r] =>
    lazymatch goal with
    | H : (length (utf8_decode_ignore r) <= length r)%nat |- _ => fail
    | _ => assert (length (utf8_decode_ignore r) <= length r)%nat
             by (apply IH; cbn [length]; lia)
    end
  end;
  cbn [length] in *; lia.
Qed.

(** X7: the String type.  Type 3 always decodes to text, never to an
    error, with at most as many characters as the value has bytes; and
    a value made of ASCII bytes only (below 0x80) decodes to exactly
    those characters. *)
Theorem decode_string_ascii (dp_length : Z) (dp_value : bytes) :
  exists code_points,
    decode_dp_value 3 dp_length dp_value = Returned (VStr code_points)
    /\ (length code_points <= length dp_value)%nat
    /\ (Forall (fun b => byte_val b < 128) dp_value ->
        code_points = map byte_val dp_value).
Proof.
  exists (utf8_decode_ignore dp_value). split; [reflexivity|]. split.
  - now apply (@utf8_decode_ignore_length (length dp_value)).
  - induction 1 as [|b v Hb _ IH]; [reflexivity|].
    cbn [utf8_decode_ignore map]. cbv zeta.
    destruct (Z.ltb_spec (byte_val b) 128); [|lia]. now rewrite IH.
Qed.

(** ** Further properties of the checksum and the packet decoder *)

(** X8: the checksum of a concatenation is the sum of the checksums of
    the parts, modulo 256; so a frame can be summed piece by piece. *)
Theorem calculate_checksum_concat (a b : bytes) :
  calculate_checksum (a ++ b)
  = (calculate_checksum a + calculate_checksum b) mod 256.
Proof.
  rewrite !calculate_checksum_eq, arithmetic_sum_app.
  now rewrite Zplus_mod.
Qed.

Lemma arithmetic_sum_perm (a b : bytes) :
  Permutation a b -> arithmetic_sum a = arithmetic_sum b.
Proof.
  induction 1 as [|x a b _ IH|x y a|a b c _ IH1 _ IH2]; cbn [arithmetic_sum]; lia.
Qed.

(** X9: the checksum does not see the order of the bytes: two byte
    sequences that are rearrangements of each other have the same
    checksum. *)
Theorem calculate_checksum_order_blind (a b : bytes) :
  Permutation a b -> calculate_checksum a = calculate_checksum b.
Proof.
  intros H. rewrite !calculate_checksum_eq.
  now rewrite (arithmetic_sum_perm H).
Qed.

Lemma calculate_checksum_order_blind_witness :
  calculate_checksum [x55; xaa; x03] = calculate_checksum [x03; x55; xaa].
Proof.
  apply (@calculate_checksum_order_blind [x55; xaa; x03] [x03; x55; xaa]).
  apply Permutation_sym. apply (Permutation_cons_append [x55; xaa] x03).
Defined.

(** X10: a frame that is accepted stays accepted when its payload bytes
    are rearranged: the decoder returns a Packet with the same version,
    command, length and checksum, the rearranged payload as data, and
    the data units the rearranged payload decodes to. *)
Theorem reordered_payload_accepted (packet_data : bytes)
    (version command data_length : Z) (data : bytes) (checksum : Z)
    (units : list data_point) (data' : bytes) :
  parse_tuya_packet packet_data
    = Returned (Packet version command data_length data checksum units) ->
  Permutation data data' ->
  exists units',
    parse_data_units data' = Returned units'
    /\ parse_tuya_packet
         (slice_to packet_data 6 ++ data' ++ slice_from packet_data (6 + data_length))
       = Returned (Packet version command data_length data' checksum units').
Proof.
  intros Hp Hperm. apply parse_tuya_packet_accepts in Hp.
  destruct Hp as (m0 & m1 & v & c1 & c2 & l & ck & trailing
                  & -> & HL & -> & -> & -> & -> & Hck & _).
  destruct (parse_data_units_total data') as [units' Hunits].
  exists units'. split; [exact Hunits|].
  rewrite (@slice_to_app_eq _ _ [m0; m1; v; c1; c2; l] (data ++ ck :: trailing))
    by reflexivity.
  replace (slice_from (m0 :: m1 :: v :: c1 :: c2 :: l :: data ++ ck :: trailing)
             (6 + byte_val l)) with (ck :: trailing).
  2:{ rewrite <- HL. symmetry.
      change (m0 :: m1 :: v :: c1 :: c2 :: l :: data ++ ck :: trailing)
        with ([m0; m1; v; c1; c2; l] ++ data ++ ck :: trailing).
      rewrite app_assoc.
      replace (6 + len data) with (len ([m0; m1; v; c1; c2; l] ++ data))
        by (rewrite len_app; reflexivity).
      apply slice_from_app. }
  assert (HL' : len data' = byte_val l).
  { rewrite <- HL. unfold len. now rewrite (Permutation_length Hperm). }
  cbn [app].
  assert (Hck' : calculate_checksum (m0 :: m1 :: v :: c1 :: c2 :: l :: data') = byte_val ck).
  { rewrite <- Hck, !calculate_checksum_eq. f_equal. symmetry.
    apply arithmetic_sum_perm. repeat apply perm_skip. exact Hperm. }
  rewrite (@parse_tuya_packet_framed m0 m1 v c1 c2 l data' ck trailing HL').
  cbv zeta. rewrite Hck', Z.eqb_refl. cbn [negb].
  rewrite Hunits. reflexivity.
Qed.

Lemma reordered_payload_accepted_witness :
  exists units',
    parse_data_units [x02; x01] = Returned units'
    /\ parse_tuya_packet [x55; xaa; x00; x00; x07; x02; x02; x01; x0b]
       = Returned (Packet 0 7 2 [x02; x01] 11 units').
Proof.
  apply (@reordered_payload_accepted [x55; xaa; x00; x00; x07; x02; x01; x02; x0b]
           0 7 2 [x01; x02] 11 [IncompleteDataUnit [x01; x02]] [x02; x01]).
  - reflexivity.
  - apply perm_swap.
Defined.

(** X11: [parse_tuya_packet] never raises and its result is decided in
    order.  Fewer than 7 bytes give "Packet too short"; otherwise a
    frame shorter than the 7 bytes plus the length declared at offset 5
    gives "Packet too short for declared data length"; otherwise a
    checksum byte that differs from the calculated one gives "Checksum
    mismatch" with both values; otherwise a Packet.  Every error carries
    the whole input as raw data, and "Failed to unpack header fields"
    is never returned. *)
Theorem parse_tuya_packet_outcome (packet_data : bytes) :
  exists r,
    parse_tuya_packet packet_data = Returned r
    /\ match r with
       | PacketTooShort raw_data => raw_data = packet_data /\ len packet_data < 7
       | FailedUnpackHeaderFields _ => False
       | PacketTooShortForLength data_length raw_data =>
         raw_data = packet_data /\ 7 <= len packet_data
         /\ getitem packet_data 5 = Returned data_length
         /\ len packet_data < 7 + data_length
       | ChecksumMismatch calculated received raw_data =>
         raw_data = packet_data /\ 7 <= len packet_data
         /\ exists data_length,
              getitem packet_data 5 = Returned data_length
              /\ 7 + data_length <= len packet_data
              /\ getitem packet_data (6 + data_length) = Returned received
              /\ calculated = calculate_checksum (slice_to packet_data (6 + data_length))
              /\ calculated <> received
       | Packet _ _ data_length _ checksum _ =>
         7 <= len packet_data
         /\ getitem packet_data 5 = Returned data_length
         /\ 7 + data_length <= len packet_data
         /\ getitem packet_data (6 + data_length) = Returned checksum
         /\ checksum = calculate_checksum (slice_to packet_data (6 + data_length))
       end.
Proof.
  destruct (Z.lt_ge_cases (len packet_data) 7) as [Hs|H7].
  { exists (PacketTooShort packet_data). split; [now apply parse_tuya_packet_short|].
    split; [reflexivity | exact Hs]. }
  destruct (@frame_layout packet_data H7)
    as (m0 & m1 & v & c1 & c2 & l & tail & -> & Hlen & Hfit).
  assert (H5 : getitem (m0 :: m1 :: v :: c1 :: c2 :: l :: tail) 5 = Returned (byte_val l))
    by (apply (@getitem_app_eq _ [m0; m1; v; c1; c2] l tail); reflexivity).
  destruct (Z.lt_ge_cases (len (m0 :: m1 :: v :: c1 :: c2 :: l :: tail))
                          (6 + byte_val l + 1)) as [Hshort|Hroom].
  { eexists. split; [now apply parse_tuya_packet_short_for_length|].
    cbv beta match. repeat split; auto; lia. }
  destruct (Hfit Hroom) as (data & ck & trailing & -> & HL).
  rewrite (@parse_tuya_packet_framed m0 m1 v c1 c2 l data ck trailing HL).
  assert (H6 : getitem (m0 :: m1 :: v :: c1 :: c2 :: l :: data ++ ck :: trailing)
                 (6 + byte_val l) = Returned (byte_val ck)).
  { apply (@getitem_app_eq _ ([m0; m1; v; c1; c2; l] ++ data) ck trailing).
    - now rewrite <- app_assoc.
    - rewrite len_app, HL. reflexivity. }
  assert (Hto : slice_to (m0 :: m1 :: v :: c1 :: c2 :: l :: data ++ ck :: trailing)
                  (6 + byte_val l) = m0 :: m1 :: v :: c1 :: c2 :: l :: data).
  { apply (@slice_to_app_eq _ _ ([m0; m1; v; c1; c2; l] ++ data) (ck :: trailing)).
    - now rewrite <- app_assoc.
    - rewrite len_app, HL. reflexivity. }
  cbv zeta.
  destruct (Z.eqb_spec (calculate_checksum (m0 :: m1 :: v :: c1 :: c2 :: l :: data))
                       (byte_val ck)) as [Heq|Hne]; cbn [negb].
  - destruct (parse_data_units_total data) as [units ->]. cbn [bind].
    eexists. split; [reflexivity|]. cbv beta match. rewrite Hto.
    repeat split; auto; lia.
  - eexists. split; [reflexivity|]. cbv beta match.
    split; [reflexivity|]. split; [exact H7|].
    exists (byte_val l). rewrite Hto. repeat split; auto; lia.
Qed.

(** X12: bytes after the checksum byte are not looked at.  A frame that
    decodes to a Packet decodes to the same Packet with any bytes
    appended to it, and with everything after its checksum byte cut
    off. *)
Theorem trailing_bytes_ignored (packet_data : bytes)
    (version command data_length : Z) (data : bytes) (checksum : Z)
    (units : list data_point) (more : bytes) :
  parse_tuya_packet packet_data
    = Returned (Packet version command data_length data checksum units) ->
  parse_tuya_packet (packet_data ++ more)
    = Returned (Packet version command data_length data checksum units)
  /\ parse_tuya_packet (slice_to packet_data (7 + data_length))
     = Returned (Packet version command data_length data checksum units).
Proof.
  intros Hp. apply parse_tuya_packet_accepts in Hp.
  destruct Hp as (m0 & m1 & v & c1 & c2 & l & ck & trailing
                  & -> & HL & -> & -> & -> & -> & Hck & Hunits).
  assert (Hgood :
    forall tl, parse_tuya_packet (m0 :: m1 :: v :: c1 :: c2 :: l :: data ++ ck :: tl)
               = Returned (Packet (byte_val v) (int_from_bytes_big [c1; c2]) (byte_val l)
                             data (byte_val ck) units)).
  { intros tl. rewrite (@parse_tuya_packet_framed m0 m1 v c1 c2 l data ck tl HL).
    cbv zeta. rewrite Hck, Z.eqb_refl. cbn [negb]. now rewrite Hunits. }
  split.
  - cbn [app]. rewrite <- app_assoc. cbn [app]. apply Hgood.
  - rewrite (@slice_to_app_eq _ _ (m0 :: m1 :: v :: c1 :: c2 :: l :: data ++ [ck]) trailing).
    + apply Hgood.
    + cbn [app]. rewrite <- app_assoc. reflexivity.
    + rewrite !len_cons, len_app, HL. change (len [ck]) with 1. lia.
Qed.

Lemma trailing_bytes_ignored_witness :
  parse_tuya_packet ([x55; xaa; x00; x00; x00; x00; xff] ++ [x12; x34])
    = Returned (Packet 0 0 0 [] 255 [])
  /\ parse_tuya_packet (slice_to [x55; xaa; x00; x00; x00; x00; xff] (7 + 0))
     = Returned (Packet 0 0 0 [] 255 []).
Proof.
  apply (@trailing_bytes_ignored [x55; xaa; x00; x00; x00; x00; xff]
           0 0 0 [] 255 [] [x12; x34]).
  reflexivity.
Defined.

Lemma wire_bytes_within (rs : list data_point) :
  Forall (fun r => len (wire_bytes r) <= len (flat_map wire_bytes rs)) rs.
Proof.
  induction rs as [|r rs IH]; constructor; cbn [flat_map]; rewrite len_app.
  - pose proof (len_nonneg (flat_map wire_bytes rs)). lia.
  - eapply Forall_impl; [|exact IH]. cbv beta. intros r' Hr'.
    pose proof (len_nonneg (wire_bytes r)). lia.
Qed.

(** X13: what holds of every Packet.  Version and checksum are bytes,
    the command is in [0, 65535], the declared length is in [0, 255]
    and is the length of [data], which is the slice of the frame from
    offset 6; the parsed data units are those of [data], all well
    formed, standing for the bytes of [data] in order, none longer than
    the declared length. *)
Theorem packet_well_formed (packet_data : bytes)
    (version command data_length : Z) (data : bytes) (checksum : Z)
    (units : list data_point) :
  parse_tuya_packet packet_data
    = Returned (Packet version command data_length data checksum units) ->
  0 <= version <= 255 /\ 0 <= command <= 65535
  /\ 0 <= data_length <= 255 /\ 0 <= checksum <= 255
  /\ len data = data_length
  /\ data = slice packet_data 6 (6 + data_length)
  /\ parse_data_units data = Returned units
  /\ Forall record_ok units
  /\ flat_map wire_bytes units = data
  /\ Forall (fun r => len (wire_bytes r) <= data_length) units.
Proof.
  intros Hp. apply parse_tuya_packet_accepts in Hp.
  destruct Hp as (m0 & m1 & v & c1 & c2 & l & ck & trailing
                  & -> & HL & -> & -> & -> & -> & Hck & Hunits).
  pose proof (byte_val_range v); pose proof (byte_val_range l);
    pose proof (byte_val_range ck); pose proof (int_from_bytes_big_2_range c1 c2).
  pose proof (len_nonneg data) as Hlen.
  destruct (@loop_records (length data) data 0 []) as (rs & Hrun & Hok & Hwire);
    [lia | unfold len; lia |].
  pose proof Hunits as Hloop. unfold parse_data_units in Hloop. rewrite Hloop in Hrun.
  injection Hrun as ->. cbn [app] in *. rewrite slice_from_start in Hwire.
  repeat (split; [first [lia | assumption | reflexivity]|]).
  split.
  - symmetry. apply (@slice_middle_eq _ [m0; m1; v; c1; c2; l] data (ck :: trailing));
      [reflexivity | reflexivity | now rewrite HL].
  - split; [exact Hunits|]. split; [exact Hok|]. split; [exact Hwire|].
    rewrite <- HL. rewrite <- Hwire. apply wire_bytes_within.
Qed.

Lemma packet_well_formed_witness :
  len [x02; x01] = 2
  /\ parse_data_units [x02; x01] = Returned [IncompleteDataUnit [x02; x01]].
Proof.
  destruct (@packet_well_formed [x55; xaa; x00; x00; x07; x02; x02; x01; x0b]
              0 7 2 [x02; x01] 11 [IncompleteDataUnit [x02; x01]])
    as (_ & _ & _ & _ & Hlen & _ & Hunits & _).
  - reflexivity.
  - split; [exact Hlen | exact Hunits].
Defined.

(** ** Further properties of the frame extraction loop *)

Lemma contains_cons_false (sub : bytes) (x : byte) (l : bytes) :
  contains sub (x :: l) = false ->
  starts_with sub (x :: l) = false /\ contains sub l = false.
Proof. cbn [contains]. intros H. now apply orb_false_iff in H. Qed.

(** Marker-free bytes in front of bytes that are empty or start with
    0x55 add no marker occurrence. *)
Lemma count_skip_free (pre rest : bytes) :
  contains PACKET_MARKER pre = false ->
  rest = [] \/ (exists t, rest = x55 :: t) ->
  count_occurrences PACKET_MARKER (pre ++ rest) = count_occurrences PACKET_MARKER rest.
Proof.
  intros Hfree Hrest. induction pre as [|x pre IH]; [reflexivity|].
  apply contains_cons_false in Hfree. destruct Hfree as [Hs Hfree].
  cbn [app count_occurrences]. rewrite (IH Hfree).
  replace (starts_with PACKET_MARKER (x :: pre ++ rest)) with false; [reflexivity|].
  symmetry. unfold PACKET_MARKER in *. cbn [starts_with] in *.
  destruct (Byte.eqb x55 x); [|reflexivity]. cbn [andb] in *.
  destruct pre as [|y pre]; [|exact Hs]. cbn [app].
  destruct Hrest as [->|[t ->]]; reflexivity.
Qed.

Lemma frames_start (frames : list frame) :
  flat_map frame_bytes frames = []
  \/ exists t, flat_map frame_bytes frames = x55 :: t.
Proof.
  destruct frames as [|f frames]; [now left|]. right.
  cbn [flat_map]. unfold frame_bytes at 1, PACKET_MARKER. cbn [app].
  eexists; reflexivity.
Qed.

Lemma count_frames (frames : list frame) :
  Forall frame_ok frames ->
  count_occurrences PACKET_MARKER (flat_map frame_bytes frames) = length frames.
Proof.
  induction 1 as [|[body r] frames [Hfree _] _ IH]; [reflexivity|].
  cbn [flat_map length]. unfold frame_bytes at 1. cbn [fst] in *.
  unfold PACKET_MARKER at 1 2. cbn [app count_occurrences starts_with].
  change (Byte.eqb x55 x55) with true. change (Byte.eqb xaa xaa) with true.
  change (Byte.eqb x55 xaa) with false. cbn [andb Nat.add].
  change [x55; xaa] with PACKET_MARKER.
  rewrite (count_skip_free _ Hfree (frames_start frames)), IH. reflexivity.
Qed.

Lemma count_free (l : bytes) :
  contains PACKET_MARKER l = false -> count_occurrences PACKET_MARKER l = 0%nat.
Proof.
  induction l as [|x l IH]; [reflexivity|]. intros H.
  apply contains_cons_false in H. destruct H as [Hs Hfree].
  cbn [count_occurrences]. rewrite Hs, (IH Hfree). reflexivity.
Qed.

(** X14: every marker occurrence in the buffer starts exactly one decode
    attempt.  The extraction loop raises the packet counter by the
    number of positions at which the marker occurs in the buffer, and
    leaves it alone when there is none. *)
Theorem one_attempt_per_marker (st : reader) :
  exists st',
    extract_loop (length (buffer st)) st = Returned st'
    /\ packet_count st'
       = packet_count st + Z.of_nat (count_occurrences PACKET_MARKER (buffer st)).
Proof.
  destruct (contains PACKET_MARKER (buffer st)) eqn:Hin.
  - destruct (@extract_loop_spec (length (buffer st)) st (Nat.le_refl _) Hin)
      as (orphan & frames & Hbuf & _ & Hfree & Hoks & ->).
    eexists. split; [reflexivity|]. cbn [packet_count].
    rewrite Hbuf, (count_skip_free _ Hfree (frames_start frames)), (count_frames Hoks).
    reflexivity.
  - exists st. split; [now apply extract_loop_no_marker|].
    rewrite (count_free _ Hin). lia.
Qed.

(** X15: what is carried over to the next read.  From a buffer that
    holds no marker, as the loop always leaves it, handling a chunk
    leaves the buffer empty when the buffered bytes followed by the
    chunk hold a marker (the last frame is decoded from whatever bytes
    are there), and leaves those bytes buffered, with nothing printed
    and nothing counted, when they hold none. *)
Theorem carry_over_policy (st : reader) (chunk : bytes) :
  contains PACKET_MARKER (buffer st) = false ->
  exists st',
    on_chunk st chunk = Returned st'
    /\ if contains PACKET_MARKER (buffer st ++ chunk)
       then buffer st' = []
       else buffer st' = buffer st ++ chunk
            /\ packet_count st' = packet_count st /\ printed st' = printed st.
Proof.
  intros Hclean. unfold on_chunk. destruct chunk as [|c chunk].
  - exists st. split; [reflexivity|]. rewrite app_nil_r, Hclean. auto.
  - set (st0 := mkReader (buffer st ++ c :: chunk) (packet_count st) (printed st)).
    destruct (contains PACKET_MARKER (buffer st ++ c :: chunk)) eqn:Hin.
    + destruct (@extract_loop_spec (length (buffer st0)) st0 (Nat.le_refl _) Hin)
        as (orphan & frames & _ & _ & _ & _ & Hrun).
      cbn [buffer st0] in Hrun. rewrite Hrun. eexists. split; reflexivity.
    + rewrite (@extract_loop_no_marker _ st0 Hin).
      exists st0. repeat split.
Qed.

Lemma carry_over_policy_witness :
  exists st',
    on_chunk (mkReader [x09; x55] 0 []) [xaa; x01; x55] = Returned st'
    /\ buffer st' = [].
Proof.
  apply (@carry_over_policy (mkReader [x09; x55] 0 []) [xaa; x01; x55]).
  reflexivity.
Defined.

Lemma read_loop_skips_empty (chunks : list bytes) :
  forall st : reader,
  read_loop chunks st
  = read_loop (filter (fun chunk => negb (len chunk =? 0)) chunks) st.
Proof.
  induction chunks as [|chunk chunks IH]; intros st; [reflexivity|].
  cbn [filter]. destruct chunk as [|c chunk].
  - cbn [read_loop on_chunk bind negb]. change (len (@nil byte) =? 0) with true.
    cbn [negb]. apply IH.
  - replace (len (c :: chunk) =? 0) with false.
    2:{ symmetry. apply Z.eqb_neq. rewrite len_cons.
        pose proof (len_nonneg chunk). lia. }
    cbn [negb read_loop].
    destruct (on_chunk st (c :: chunk)); cbn [bind]; auto.
Qed.

(** X16: empty reads are nothing to do.  What a run prints, counts and
    leaves buffered is the same with the empty chunks the serial port
    returned removed, wherever they fall. *)
Theorem empty_reads_ignored (chunks : list bytes) :
  read_and_hexdump_packets chunks
  = read_and_hexdump_packets (filter (fun chunk => negb (len chunk =? 0)) chunks).
Proof. unfold read_and_hexdump_packets. apply read_loop_skips_empty. Qed.

Lemma rounds_app (n m k : Z) (e1 e2 : list event) :
  rounds n e1 m -> rounds m e2 k -> rounds n (e1 ++ e2) k.
Proof.
  induction 1 as [n|n m orphan body r evs Hfree Hok _ IH]; intros H2; [exact H2|].
  rewrite <- app_assoc. cbn [app].
  apply rounds_frame; auto.
Qed.

Lemma rounds_frames (frames : list frame) :
  Forall frame_ok frames ->
  forall n, rounds n (frame_events n frames) (n + len frames).
Proof.
  induction 1 as [|[body r] frames Hok _ IH]; intros n.
  - change (len (@nil frame)) with 0. rewrite Z.add_0_r. constructor.
  - cbn [frame_events]. unfold frame_bytes. cbn [fst snd].
    rewrite len_cons.
    replace (n + (1 + len frames)) with (n + 1 + len frames) by lia.
    apply (@rounds_frame n (n + 1 + len frames) [] body r); auto.
Qed.

Lemma rounds_first (orphan : bytes) (frames : list frame) (n : Z) :
  contains PACKET_MARKER orphan = false ->
  frames <> [] ->
  Forall frame_ok frames ->
  rounds n (orphan_event orphan ++ frame_events n frames) (n + len frames).
Proof.
  intros Hfree Hne Hoks. destruct frames as [|[body r] frames]; [congruence|].
  inversion Hoks as [|f fs Hok Hoks']; subst.
  cbn [frame_events]. unfold frame_bytes. cbn [fst snd]. rewrite len_cons.
  replace (n + (1 + len frames)) with (n + 1 + len frames) by lia.
  apply rounds_frame; auto. now apply rounds_frames.
Qed.

Lemma on_chunk_rounds (st : reader) (chunk : bytes) :
  contains PACKET_MARKER (buffer st) = false ->
  exists st' events,
    on_chunk st chunk = Returned st'
    /\ contains PACKET_MARKER (buffer st') = false
    /\ printed st' = printed st ++ events
    /\ rounds (packet_count st) events (packet_count st').
Proof.
  intros Hclean. unfold on_chunk. destruct chunk as [|c chunk].
  { exists st, []. rewrite app_nil_r. repeat split; auto. constructor. }
  set (st0 := mkReader (buffer st ++ c :: chunk) (packet_count st) (printed st)).
  destruct (contains PACKET_MARKER (buffer st ++ c :: chunk)) eqn:Hin.
  - destruct (@extract_loop_spec (length (buffer st0)) st0 (Nat.le_refl _) Hin)
      as (orphan & frames & Hbuf & _ & Hfree & Hoks & Hrun).
    cbn [buffer st0] in Hrun, Hbuf. rewrite Hrun.
    do 2 eexists. split; [reflexivity|]. cbn [buffer printed packet_count st0].
    split; [reflexivity|]. split; [reflexivity|].
    apply rounds_first; auto.
    intros ->. cbn [flat_map] in Hbuf. rewrite app_nil_r in Hbuf. congruence.
  - rewrite (@extract_loop_no_marker _ st0 Hin).
    exists st0, []. cbn [buffer printed packet_count st0]. rewrite app_nil_r.
    repeat split; auto. constructor.
Qed.

Lemma read_loop_rounds (chunks : list bytes) :
  forall st : reader,
  contains PACKET_MARKER (buffer st) = false ->
  exists st' events,
    read_loop chunks st = Returned st'
    /\ printed st' = printed st ++ events
    /\ rounds (packet_count st) events (packet_count st').
Proof.
  induction chunks as [|chunk chunks IH]; intros st Hclean; cbn [read_loop].
  - exists st, []. rewrite app_nil_r. repeat split. constructor.
  - destruct (@on_chunk_rounds st chunk Hclean) as (st1 & e1 & -> & Hclean1 & Hp1 & Hr1).
    cbn [bind]. destruct (IH st1 Hclean1) as (st' & e2 & -> & Hp2 & Hr2).
    exists st', (e1 ++ e2). split; [reflexivity|]. split.
    + now rewrite Hp2, Hp1, app_assoc.
    + eapply rounds_app; eassumption.
Qed.

(** X17: the shape of everything a run prints.  For every sequence of
    chunks the run returns, and what it printed is a sequence of rounds:
    frames are numbered 1, 2, ... up to the final packet count without a
    gap; each raw dump is the marker followed by bytes holding no
    marker and is directly followed by the result of decoding exactly
    that frame; a diagnostic holds no marker and occurs only directly
    before a raw dump. *)
Theorem printed_in_rounds (chunks : list bytes) :
  exists final,
    read_and_hexdump_packets chunks = Returned final
    /\ rounds 0 (printed final) (packet_count final).
Proof.
  unfold read_and_hexdump_packets.
  destruct (@read_loop_rounds chunks (mkReader [] 0 []) eq_refl)
    as (final & events & Hrun & Hprinted & Hrounds).
  exists final. split; [exact Hrun|].
  cbn [printed packet_count app] in *. now rewrite Hprinted.
Qed.

(** ** Properties of the hex dump *)

Fixpoint of_pos_offset_chars (p : positive) (rest : String.string) {struct p} :
  forallb offset_char (String.list_ascii_of_string rest) = true ->
  forallb offset_char
    (String.list_ascii_of_string (HexString.Raw.of_pos p rest)) = true.
Proof.
  do 4 try destruct p as [p|p|]; intros H; cbn [HexString.Raw.of_pos];
    try apply of_pos_offset_chars;
    cbn [String.list_ascii_of_string forallb]; rewrite H; reflexivity.
Qed.

Lemma forallb_repeat {A : Type} (f : A -> bool) (x : A) (n : nat) :
  f x = true -> forallb f (repeat x n) = true.
Proof. intros H. induction n; cbn [repeat forallb]; [reflexivity | now rewrite H]. Qed.

Lemma format_0x_offset_chars (width : nat) (n : Z) :
  forallb offset_char (format_0x width n) = true.
Proof.
  destruct n as [|p|p]; unfold format_0x; cbv zeta.
  - rewrite forallb_app, forallb_repeat by reflexivity. reflexivity.
  - rewrite forallb_app, forallb_repeat by reflexivity.
    now rewrite of_pos_offset_chars.
  - cbn [forallb]. rewrite forallb_app, forallb_repeat by reflexivity.
    now rewrite of_pos_offset_chars.
Qed.

Lemma after_colon_field (field rest : str) :
  forallb offset_char field = true ->
  after_colon (field ++ ":"%char :: " "%char :: rest) = rest.
Proof.
  induction field as [|c field IH]; intros H; [reflexivity|].
  cbn [forallb] in H. apply andb_true_iff in H. destruct H as [Hc H].
  cbn [app after_colon]. unfold offset_char in Hc.
  apply andb_true_iff in Hc. destruct Hc as [_ Hc].
  apply negb_true_iff in Hc. rewrite Hc. now apply IH.
Qed.

(** The two digits of a byte, read back. *)
Lemma read_hex_pair (b : byte) (t : str) :
  read_hex_pairs (format_0x 2 (byte_val b) ++ " "%char :: t) = b :: read_hex_pairs t.
Proof. destruct b; reflexivity. Qed.

Lemma format_byte_length (b : byte) : length (format_0x 2 (byte_val b)) = 2%nat.
Proof. destruct b; reflexivity. Qed.

Lemma format_byte_printable (b : byte) :
  forallb printable (format_0x 2 (byte_val b)) = true.
Proof. destruct b; reflexivity. Qed.

Lemma chr_or_dot_printable (b : byte) : printable (chr_or_dot b) = true.
Proof. destruct b; reflexivity. Qed.

Lemma read_hex_pairs_stop (c : ascii) (t : str) :
  hex_value c = None -> read_hex_pairs (c :: t) = [].
Proof. intros H. cbn [read_hex_pairs]. destruct t; [reflexivity|]. now rewrite H. Qed.

Lemma read_hex_line (b : byte) (row : bytes) (t : str) :
  read_hex_pairs t = [] ->
  read_hex_pairs
    (join [" "%char] (map (fun byte => format_0x 2 (byte_val byte)) (b :: row))
       ++ " "%char :: t)
  = b :: row.
Proof.
  intros Ht. cbn [map join]. revert b.
  induction row as [|b' row IH]; intros b; cbn [map flat_map].
  - rewrite app_nil_r, read_hex_pair, Ht. reflexivity.
  - rewrite <- !app_assoc. cbn [app]. rewrite read_hex_pair. f_equal.
    rewrite app_assoc. apply IH.
Qed.

Lemma join_hex_length (b : byte) (row : bytes) :
  length (join [" "%char] (map (fun byte => format_0x 2 (byte_val byte)) (b :: row)))
  = (2 + 3 * length row)%nat.
Proof.
  cbn [map join]. rewrite length_app, format_byte_length. f_equal.
  induction row as [|b' row IH]; [reflexivity|].
  cbn [map flat_map length]. rewrite !length_app, format_byte_length, IH.
  cbn [length]. lia.
Qed.

Lemma join_chars (row : bytes) :
  join [] (map (fun byte => [chr_or_dot byte]) row) = map chr_or_dot row.
Proof.
  destruct row as [|b row]; [reflexivity|]. cbn [map join app]. f_equal.
  induction row as [|b' row IH]; [reflexivity|].
  cbn [map flat_map app]. now rewrite IH.
Qed.

Lemma forallb_join_hex (row : bytes) :
  forallb printable
    (join [" "%char] (map (fun byte => format_0x 2 (byte_val byte)) row)) = true.
Proof.
  destruct row as [|b row]; [reflexivity|]. cbn [map join].
  rewrite forallb_app, format_byte_printable. cbn [andb].
  induction row as [|b' row IH]; [reflexivity|].
  cbn [map flat_map]. rewrite !forallb_app, format_byte_printable, IH. reflexivity.
Qed.

Lemma offset_chars_printable (s : str) :
  forallb offset_char s = true -> forallb printable s = true.
Proof.
  induction s as [|c s IH]; [reflexivity|]. cbn [forallb].
  rewrite !andb_true_iff. unfold offset_char at 1. rewrite andb_true_iff.
  intros [[Hc _] Hs]. auto.
Qed.

(** A dump line for a row of 1 to 16 bytes, taken apart. *)
Lemma hexdump_line_spec (packet_data : bytes) (offset : Z) (b : byte) (row : bytes) :
  slice packet_data offset (offset + 16) = b :: row ->
  (length row <= 15)%nat ->
  read_line (hexdump_line packet_data offset) = b :: row
  /\ ascii_column (hexdump_line packet_data offset) = map chr_or_dot (b :: row)
  /\ forallb printable (hexdump_line packet_data offset) = true.
Proof.
  intros Hrow Hlen. unfold hexdump_line. rewrite Hrow. cbv zeta.
  set (hex_line := join [" "%char] (map (fun byte => format_0x 2 (byte_val byte)) (b :: row))).
  assert (Hhex : length hex_line = (2 + 3 * length row)%nat) by apply join_hex_length.
  rewrite join_chars.
  pose proof (format_0x_offset_chars 8 offset) as Hfield.
  split; [|split].
  - unfold read_line. cbn [app]. rewrite (@after_colon_field _ _ Hfield).
    unfold ljust. rewrite <- app_assoc.
    destruct (48 - length hex_line)%nat as [|k] eqn:Hk.
    + cbn [repeat app]. unfold hex_line. apply read_hex_line. reflexivity.
    + cbn [repeat app]. unfold hex_line. apply read_hex_line.
      destruct k; cbn [repeat app]; now apply read_hex_pairs_stop.
  - unfold ascii_column. cbn [app]. rewrite (@after_colon_field _ _ Hfield).
    replace 50%nat with (length (ljust 48 hex_line ++ [" "%char; "|"%char]) + 0)%nat.
    2:{ unfold ljust. rewrite !length_app, repeat_length. cbn [length]. lia. }
    change (ljust 48 hex_line
              ++ " "%char :: "|"%char :: map chr_or_dot (b :: row) ++ ["|"%char])
      with (ljust 48 hex_line
              ++ [" "%char; "|"%char] ++ map chr_or_dot (b :: row) ++ ["|"%char]).
    rewrite app_assoc, skipn_app, skipn_all2 by lia.
    replace (length (ljust 48 hex_line ++ [" "%char; "|"%char]) + 0
             - length (ljust 48 hex_line ++ [" "%char; "|"%char]))%nat
      with 0%nat by lia.
    cbn [app skipn]. apply (removelast_last (chr_or_dot b :: map chr_or_dot row)).
  - rewrite !forallb_app. rewrite (@offset_chars_printable _ Hfield).
    unfold ljust. rewrite forallb_app, forallb_repeat by reflexivity.
    unfold hex_line. rewrite forallb_join_hex.
    cbn [forallb andb].
    assert (Hasc : forallb printable (map chr_or_dot (b :: row)) = true).
    { rewrite forallb_forall. intros c Hc. apply in_map_iff in Hc.
      destruct Hc as (x & <- & _). apply chr_or_dot_printable. }
    cbn [map] in Hasc. cbn [map forallb] in *. rewrite Hasc. reflexivity.
Qed.

Lemma len_slice_clamped {A : Type} (l : list A) (i j : Z) :
  0 <= i -> i <= j ->
  len (slice l i j) = Z.min j (len l) - Z.min i (len l).
Proof.
  intros Hi Hij. pose proof (len_nonneg l).
  rewrite slice_nonneg by lia. unfold len in *.
  rewrite length_firstn, length_skipn. lia.
Qed.

Lemma slice_then_rest_clamped {A : Type} (l : list A) (i j : Z) :
  0 <= i -> i <= j -> slice l i j ++ slice_from l j = slice_from l i.
Proof.
  intros Hi Hij. pose proof (len_nonneg l).
  rewrite slice_nonneg by lia. unfold slice_from.
  rewrite !clamp_index_nonneg by lia.
  replace (Z.to_nat (Z.min j (len l)))
    with (Z.to_nat (Z.min j (len l) - Z.min i (len l)) + Z.to_nat (Z.min i (len l)))%nat
    by lia.
  rewrite <- skipn_skipn. apply firstn_skipn.
Qed.

Lemma slice_from_beyond {A : Type} (l : list A) (i : Z) :
  len l <= i -> slice_from l i = [].
Proof.
  intros H. pose proof (len_nonneg l). unfold slice_from.
  rewrite clamp_index_nonneg, Z.min_r by lia. rewrite to_nat_len. apply skipn_all.
Qed.

(** The 16 bytes from a cursor inside the data: at least one, at most 16. *)
Lemma hexdump_row (packet_data : bytes) (offset : Z) :
  0 <= offset -> offset < len packet_data ->
  exists b row,
    slice packet_data offset (offset + 16) = b :: row /\ (length row <= 15)%nat.
Proof.
  intros Hlo Hhi.
  pose proof (@len_slice_clamped _ packet_data offset (offset + 16) Hlo) as Hlen.
  destruct (slice packet_data offset (offset + 16)) as [|b row].
  - change (len (@nil byte)) with 0 in Hlen. lia.
  - exists b, row. split; [reflexivity|]. rewrite len_cons in Hlen.
    unfold len in Hlen at 1. lia.
Qed.

(** The dump loop, line by line. *)
Lemma hexdump_loop_spec (fuel : nat) :
  forall (packet_data : bytes) (offset : Z) (printed_lines : list str),
  0 <= offset ->
  len packet_data - offset <= Z.of_nat fuel ->
  exists lines,
    hexdump_packet_loop fuel packet_data offset printed_lines
      = Returned (printed_lines ++ lines)
    /\ flat_map read_line lines = slice_from packet_data offset
    /\ flat_map ascii_column lines = map chr_or_dot (slice_from packet_data offset)
    /\ forallb (forallb printable) lines = true
    /\ len lines = Z.max 0 ((len packet_data - offset + 15) / 16).
Proof.
  induction fuel as [|fuel IH]; intros packet_data offset printed_lines Hoff Hfuel;
    cbn [hexdump_packet_loop];
    destruct (Z.ltb_spec offset (len packet_data)) as [Hlt|Hge]; try lia.
  1,3: exists []; rewrite app_nil_r, slice_from_beyond by lia;
       repeat split; auto;
       change (len (@nil str)) with 0;
       assert ((len packet_data - offset + 15) / 16 <= 0)
         by (apply Z.lt_succ_r, Z.div_lt_upper_bound; lia); lia.
  destruct (@hexdump_row packet_data offset Hoff Hlt) as (b & row & Hrow & Hlen).
  destruct (@hexdump_line_spec packet_data offset b row Hrow Hlen)
    as (Hread & Hasc & Hprint).
  destruct (IH packet_data (offset + 16)
              (printed_lines ++ [hexdump_line packet_data offset]))
    as (lines & -> & Hreads & Hascs & Hprints & Hcount); try lia.
  exists (hexdump_line packet_data offset :: lines).
  rewrite <- app_assoc. split; [reflexivity|].
  cbn [flat_map forallb]. rewrite Hread, Hasc, Hreads, Hascs, Hprint, Hprints.
  rewrite <- Hrow, <- map_app, slice_then_rest_clamped by lia.
  repeat split; auto.
  rewrite len_cons, Hcount.
  replace (len packet_data - offset + 15)
    with (len packet_data - (offset + 16) + 15 + 1 * 16) by lia.
  rewrite Z.div_add by lia.
  assert (0 <= (len packet_data - (offset + 16) + 15) / 16)
    by (apply Z.div_pos; lia).
  lia.
Qed.

(** X18: the hex dump is complete and can be read back.  For every byte
    sequence [hexdump_packet] returns, printing one line for every 16
    bytes begun (none for the empty sequence), and reading on every
    line the two-digit groups that follow the first colon gives back
    the bytes, in order. *)
Theorem hexdump_packet_readable (packet_data : bytes) :
  exists lines,
    hexdump_packet packet_data = Returned lines
    /\ flat_map read_line lines = packet_data
    /\ len lines = (len packet_data + 15) / 16.
Proof.
  pose proof (len_nonneg packet_data) as Hlen.
  destruct (@hexdump_loop_spec (length packet_data) packet_data 0 [])
    as (lines & Hrun & Hread & _ & _ & Hcount); [lia | unfold len; lia |].
  exists lines. split; [exact Hrun|].
  rewrite Hread, slice_from_start, Hcount, Z.sub_0_r. split; [reflexivity|].
  assert (0 <= (len packet_data + 15) / 16) by (apply Z.div_pos; lia). lia.
Qed.

Lemma chr_or_dot_shown (b : byte) : shown_as b (chr_or_dot b).
Proof. destruct b; vm_compute; reflexivity. Qed.

Lemma shown_column (row : bytes) : Forall2 shown_as row (map chr_or_dot row).
Proof.
  induction row as [|b row IH]; cbn [map]; constructor;
    [apply chr_or_dot_shown | exact IH].
Qed.

(** X19: the hex dump prints nothing a terminal would interpret.  Every
    character of every line is printable ASCII (32 to 126), whatever
    the bytes are; and the text between the bars of the lines shows one
    character per byte, in order: the character whose code is the byte
    when the byte is in 32..126, a dot otherwise. *)
Theorem hexdump_packet_printable (packet_data : bytes) :
  exists lines,
    hexdump_packet packet_data = Returned lines
    /\ forallb (forallb printable) lines = true
    /\ Forall2 shown_as packet_data (flat_map ascii_column lines).
Proof.
  pose proof (len_nonneg packet_data) as Hlen.
  destruct (@hexdump_loop_spec (length packet_data) packet_data 0 [])
    as (lines & Hrun & _ & Hasc & Hprint & _); [lia | unfold len; lia |].
  exists lines. split; [exact Hrun|]. split; [exact Hprint|].
  rewrite Hasc, slice_from_start. apply shown_column.
Qed.

(** ** From frames to decode attempts *)

Lemma contains_marker_inside (pre post : bytes) :
  contains PACKET_MARKER (pre ++ PACKET_MARKER ++ post) = true.
Proof.
  induction pre as [|x pre IH]; [reflexivity|].
  cbn [app contains]. rewrite IH. apply orb_true_r.
Qed.

(** The first marker after marker-free bytes is found where they end. *)
Lemma find_after_free (pre post : bytes) :
  contains PACKET_MARKER pre = false ->
  find (pre ++ PACKET_MARKER ++ post) PACKET_MARKER = len pre.
Proof.
  intros Hfree. unfold find.
  assert (H : forall i, find_from PACKET_MARKER (pre ++ PACKET_MARKER ++ post) i = i + len pre);
    [|now rewrite H].
  induction pre as [|x pre IH]; intros i.
  - change (len (@nil byte)) with 0. rewrite Z.add_0_r. reflexivity.
  - apply contains_cons_false in Hfree. destruct Hfree as [Hs Hfree].
    cbn [app find_from].
    replace (starts_with PACKET_MARKER (x :: pre ++ PACKET_MARKER ++ post)) with false.
    + rewrite (IH Hfree), len_cons. lia.
    + symmetry. unfold PACKET_MARKER in *. cbn [starts_with] in *.
      destruct (Byte.eqb x55 x); [|reflexivity]. cbn [andb] in *.
      destruct pre as [|y pre]; [reflexivity | exact Hs].
Qed.

Lemma find_free (l : bytes) :
  contains PACKET_MARKER l = false -> find l PACKET_MARKER = -1.
Proof. intros H. pose proof (find_marker l) as Hf. now rewrite H in Hf. Qed.

Lemma app_same_length {A : Type} (a a' b b' : list A) :
  a ++ b = a' ++ b' -> length a = length a' -> a = a' /\ b = b'.
Proof.
  revert a'; induction a as [|x a IH]; intros [|x' a'] Heq Hlen;
    cbn in Hlen; try discriminate; [now split|].
  cbn [app] in Heq. injection Heq as -> Heq.
  destruct (IH a' Heq) as [-> ->]; [lia|]. now split.
Qed.

(** Marker-free bytes followed by nothing or by a marker: the split is
    determined by the whole. *)
Lemma body_split_unique (b rest b' rest' : bytes) :
  contains PACKET_MARKER b = false ->
  contains PACKET_MARKER b' = false ->
  rest = [] \/ (exists t, rest = PACKET_MARKER ++ t) ->
  rest' = [] \/ (exists t, rest' = PACKET_MARKER ++ t) ->
  b ++ rest = b' ++ rest' ->
  b = b' /\ rest = rest'.
Proof.
  intros Hb Hb' [->|[t ->]] [->|[t' ->]] Heq.
  - rewrite !app_nil_r in Heq. now split.
  - rewrite app_nil_r in Heq. subst b.
    now rewrite contains_marker_inside in Hb.
  - rewrite app_nil_r in Heq. subst b'.
    now rewrite contains_marker_inside in Hb'.
  - apply app_same_length; [exact Heq|].
    pose proof (@find_after_free b t Hb) as H1.
    pose proof (@find_after_free b' t' Hb') as H2.
    rewrite Heq, H2 in H1. unfold len in H1. lia.
Qed.

Lemma marked_bodies_start (bodies : list bytes) :
  flat_map (app PACKET_MARKER) bodies = []
  \/ exists t, flat_map (app PACKET_MARKER) bodies = PACKET_MARKER ++ t.
Proof.
  destruct bodies as [|b bodies]; [now left|]. right.
  cbn [flat_map]. rewrite <- app_assoc. eexists; reflexivity.
Qed.

(** The loop on a buffer known to be marker-free bytes followed by
    marker-led frames with marker-free bodies. *)
Lemma extract_known (bodies : list bytes) :
  forall (fuel : nat) (st : reader) (orphan body : bytes),
  contains PACKET_MARKER orphan = false ->
  Forall (fun b => contains PACKET_MARKER b = false) (body :: bodies) ->
  buffer st = orphan ++ flat_map (app PACKET_MARKER) (body :: bodies) ->
  (length (buffer st) <= fuel)%nat ->
  exists results,
    Forall2 (fun b r => parse_tuya_packet (PACKET_MARKER ++ b) = Returned r)
      (body :: bodies) results
    /\ extract_loop fuel st
       = Returned (mkReader [] (packet_count st + len (body :: bodies))
                     (printed st ++ orphan_event orphan
                        ++ frame_events (packet_count st)
                             (combine (body :: bodies) results))).
Proof.
  induction bodies as [|body2 bodies IH]; intros fuel st orphan body Hfree Hall Hbuf Hfuel.
  - inversion Hall as [|? ? Hbody _]; subst. cbn [flat_map] in Hbuf.
    rewrite app_nil_r in Hbuf.
    destruct fuel as [|fuel].
    { rewrite Hbuf, !length_app in Hfuel. cbn [length PACKET_MARKER] in Hfuel. lia. }
    cbn [extract_loop].
    replace (contains PACKET_MARKER (buffer st)) with true
      by (rewrite Hbuf; symmetry; apply contains_marker_inside).
    pose proof (@find_after_free orphan body Hfree) as Hfind. rewrite <- Hbuf in Hfind.
    destruct (@extract_body_spec st orphan body Hbuf Hfind)
      as (body0 & rest & r & Hsplit & Hrest & Hok & ->).
    rewrite <- (app_nil_r body) in Hsplit.
    destruct (@body_split_unique body [] body0 rest Hbody (proj1 Hok)
                (or_introl eq_refl) Hrest Hsplit) as [<- <-].
    cbn [bind]. rewrite extract_loop_no_marker by reflexivity.
    exists [r]. split.
    + constructor; [exact (proj1 (proj2 Hok)) | constructor].
    + reflexivity.
  - inversion Hall as [|? ? Hbody Hall']; subst.
    cbn [flat_map] in Hbuf. rewrite <- !app_assoc in Hbuf.
    destruct fuel as [|fuel].
    { rewrite Hbuf, !length_app in Hfuel. cbn [length PACKET_MARKER] in Hfuel. lia. }
    cbn [extract_loop].
    replace (contains PACKET_MARKER (buffer st)) with true
      by (rewrite Hbuf; symmetry; apply contains_marker_inside).
    pose proof (@find_after_free orphan (body ++ PACKET_MARKER ++ body2
                                   ++ flat_map (app PACKET_MARKER) bodies) Hfree) as Hfind.
    rewrite <- Hbuf in Hfind.
    destruct (@extract_body_spec st orphan _ Hbuf Hfind)
      as (body0 & rest & r & Hsplit & Hrest & Hok & ->).
    destruct (@body_split_unique body
                (PACKET_MARKER ++ body2 ++ flat_map (app PACKET_MARKER) bodies)
                body0 rest Hbody (proj1 Hok)
                (or_intror (ex_intro _ _ eq_refl)) Hrest Hsplit) as [<- <-].
    cbn [bind].
    pose (st' := mkReader (PACKET_MARKER ++ body2 ++ flat_map (app PACKET_MARKER) bodies)
                  (packet_count st + 1)
                  (printed st ++ orphan_event orphan
                     ++ frame_events (packet_count st) [(body, r)])).
    destruct (IH fuel st' [] body2) as (results & Hres & Hrun).
    { reflexivity. }
    { exact Hall'. }
    { cbn [buffer st' flat_map app]. now rewrite <- app_assoc. }
    { cbn [buffer st']. rewrite Hbuf, !length_app in Hfuel.
      rewrite !length_app. cbn [length PACKET_MARKER] in *. lia. }
    exists (r :: results). split.
    + constructor; [exact (proj1 (proj2 Hok)) | exact Hres].
    + etransitivity; [exact Hrun|].
      cbn [st' packet_count printed]. rewrite !len_cons.
      change (orphan_event []) with (@nil event). cbn [app combine frame_events].
      f_equal. f_equal; [lia|]. rewrite <- !app_assoc. reflexivity.
Qed.

(** X20: a buffer of known frames.  When the buffer is marker-free
    bytes followed by one or more frames, each the marker and then
    bytes holding no marker, the loop makes exactly one decode attempt
    per frame, on exactly these frames and in their order, after
    printing the marker-free bytes as the diagnostic, and leaves the
    buffer empty. *)
Theorem known_frames_extracted (st : reader) (orphan body : bytes) (bodies : list bytes) :
  contains PACKET_MARKER orphan = false ->
  Forall (fun b => contains PACKET_MARKER b = false) (body :: bodies) ->
  buffer st = orphan ++ flat_map (app PACKET_MARKER) (body :: bodies) ->
  exists results,
    Forall2 (fun b r => parse_tuya_packet (PACKET_MARKER ++ b) = Returned r)
      (body :: bodies) results
    /\ extract_loop (length (buffer st)) st
       = Returned (mkReader [] (packet_count st + len (body :: bodies))
                     (printed st ++ orphan_event orphan
                        ++ frame_events (packet_count st)
                             (combine (body :: bodies) results))).
Proof.
  intros Hfree Hall Hbuf.
  apply (@extract_known bodies (length (buffer st)) st orphan body Hfree Hall Hbuf).
  apply Nat.le_refl.
Qed.

Lemma known_frames_extracted_witness :
  exists results,
    Forall2 (fun b r => parse_tuya_packet (PACKET_MARKER ++ b) = Returned r)
      [[x00; x00; x00; x00; xff]; [x01]] results
    /\ extract_loop 11 (mkReader [x09; x55; xaa; x00; x00; x00; x00; xff; x55; xaa; x01] 4 [])
       = Returned (mkReader [] 6
                     (UnexpectedData [x09]
                        :: frame_events 4 (combine [[x00; x00; x00; x00; xff]; [x01]] results))).
Proof.
  apply (@known_frames_extracted
           (mkReader [x09; x55; xaa; x00; x00; x00; x00; xff; x55; xaa; x01] 4 [])
           [x09] [x00; x00; x00; x00; xff] [[x01]]).
  - reflexivity.
  - repeat constructor.
  - reflexivity.
Defined.

(** The frame of a message, decoded on its own. *)
Lemma parse_built_frame (version command : Z) (payload : bytes) :
  0 <= version <= 255 -> 0 <= command <= 65535 -> len payload <= 255 ->
  exists r,
    parse_tuya_packet (build_frame version command payload) = Returned r
    /\ received_as (version, command, payload) r.
Proof.
  intros Hv Hc Hp.
  destruct (parse_data_units_total payload) as [units Hunits].
  eexists. split.
  - apply parse_frame_with_marker_sum; eassumption.
  - cbn [received_as]. do 2 eexists. split; [exact Hunits | reflexivity].
Qed.

Lemma frame_of_marker (m : message) : frame_of m = PACKET_MARKER ++ body_of m.
Proof. destruct m as [[version command] payload]. reflexivity. Qed.

Lemma frames_of_messages (msgs : list message) :
  flat_map frame_of msgs = flat_map (app PACKET_MARKER) (map body_of msgs).
Proof.
  induction msgs as [|m msgs IH]; [reflexivity|].
  cbn [flat_map map]. now rewrite IH, frame_of_marker.
Qed.

Lemma results_received (msgs : list message) :
  Forall sendable msgs ->
  forall results,
  Forall2 (fun b r => parse_tuya_packet (PACKET_MARKER ++ b) = Returned r)
    (map body_of msgs) results ->
  Forall2 received_as msgs results.
Proof.
  induction 1 as [|[[version command] payload] msgs Hm _ IH]; intros results Hres;
    inversion Hres as [|b r bs rs Hr Hrs]; subst; constructor.
  - destruct Hm as (Hv & Hc & Hp & _).
    destruct (@parse_built_frame version command payload Hv Hc Hp) as (r' & Hr' & Hrec).
    rewrite <- frame_of_marker in Hr. cbn [frame_of] in Hr.
    rewrite Hr' in Hr. now injection Hr as <-.
  - now apply IH.
Qed.

(** X21: end to end.  Sendable messages, each laid out as marker,
    version, command, length, payload and the checksum byte equal to
    the sum of all bytes before it (marker included) modulo 256, put
    back to back and read in one chunk, are received as themselves: the
    run prints, for each message in order, the raw dump of its frame
    and the Packet with its version, command, payload length and
    payload, numbered from 1, and nothing else; the buffer ends
    empty. *)
Theorem messages_received (msgs : list message) :
  Forall sendable msgs ->
  exists results,
    Forall2 received_as msgs results
    /\ read_and_hexdump_packets [flat_map frame_of msgs]
       = Returned (mkReader [] (len msgs)
                     (frame_events 0 (combine (map body_of msgs) results))).
Proof.
  intros Hmsgs. unfold read_and_hexdump_packets. cbn [read_loop].
  destruct msgs as [|m msgs].
  { exists []. split; [constructor | reflexivity]. }
  assert (Hfree : Forall (fun b => contains PACKET_MARKER b = false)
                    (map body_of (m :: msgs))).
  { apply Forall_map. eapply Forall_impl; [|exact Hmsgs].
    intros [[version command] payload] H. apply H. }
  pose proof (frames_of_messages (m :: msgs)) as Hframes.
  set (chunk := flat_map frame_of (m :: msgs)) in *.
  assert (Hchunk : exists c t, chunk = c :: t).
  { unfold chunk. cbn [flat_map]. rewrite frame_of_marker.
    unfold PACKET_MARKER. cbn [app]. do 2 eexists; reflexivity. }
  destruct Hchunk as (c & t & Hct). unfold on_chunk. rewrite Hct. cbn [buffer app].
  cbn [packet_count printed]. rewrite <- Hct.
  cbn [map] in Hfree, Hframes.
  destruct (@extract_known (map body_of msgs) (length chunk) (mkReader chunk 0 []) []
              (body_of m) eq_refl Hfree Hframes (Nat.le_refl _))
    as (results & Hres & Hrun).
  rewrite Hrun. cbn [bind read_loop]. exists results. split.
  - apply (@results_received (m :: msgs) Hmsgs). exact Hres.
  - cbn [packet_count printed app]. change (orphan_event []) with (@nil event).
    cbn [app]. do 2 f_equal. unfold len. cbn [length map]. rewrite length_map. lia.
Qed.

Lemma messages_received_witness :
  exists results,
    Forall2 received_as [(3, 7, [x01; x00; x00; x00]); (3, 8, [])] results
    /\ read_and_hexdump_packets
         [flat_map frame_of [(3, 7, [x01; x00; x00; x00]); (3, 8, [])]]
       = Returned (mkReader [] 2
                     (frame_events 0
                        (combine (map body_of [(3, 7, [x01; x00; x00; x00]); (3, 8, [])])
                           results))).
Proof.
  apply (@messages_received [(3, 7, [x01; x00; x00; x00]); (3, 8, [])]).
  repeat constructor; try (vm_compute; discriminate).
Defined.

(** X22: a frame cut by a read boundary is not put together again.
    When one read ends inside a frame (after its marker) and the next
    read brings the rest, the first part is decoded at once as a frame
    of its own, the rest stays in the buffer, and when the next frame
    arrives the rest is printed as unexpected data, never decoded. *)
Theorem frame_split_across_reads (part1 part2 body3 : bytes) :
  contains PACKET_MARKER part1 = false ->
  contains PACKET_MARKER part2 = false ->
  contains PACKET_MARKER body3 = false ->
  exists r1 r3,
    parse_tuya_packet (PACKET_MARKER ++ part1) = Returned r1
    /\ parse_tuya_packet (PACKET_MARKER ++ body3) = Returned r3
    /\ read_and_hexdump_packets [PACKET_MARKER ++ part1; part2]
       = Returned (mkReader part2 1
                     [RawPacket 1 (PACKET_MARKER ++ part1); ParsedPacket 1 r1])
    /\ read_and_hexdump_packets [PACKET_MARKER ++ part1; part2; PACKET_MARKER ++ body3]
       = Returned (mkReader [] 2
                     ([RawPacket 1 (PACKET_MARKER ++ part1); ParsedPacket 1 r1]
                        ++ orphan_event part2
                        ++ [RawPacket 2 (PACKET_MARKER ++ body3); ParsedPacket 2 r3])).
Proof.
  intros H1 H2 H3.
  assert (Hfirst : exists r1,
            parse_tuya_packet (PACKET_MARKER ++ part1) = Returned r1
            /\ on_chunk (mkReader [] 0 []) (PACKET_MARKER ++ part1)
               = Returned (mkReader [] 1
                             [RawPacket 1 (PACKET_MARKER ++ part1); ParsedPacket 1 r1])).
  { destruct (@extract_known [] (length (PACKET_MARKER ++ part1))
                (mkReader (PACKET_MARKER ++ part1) 0 []) [] part1 eq_refl)
      as (results & Hres & Hrun).
    - now constructor.
    - cbn [buffer flat_map app]. now rewrite app_nil_r.
    - apply Nat.le_refl.
    - inversion Hres as [|b r bs rs Hr Hrs]; subst. inversion Hrs; subst.
      exists r. split; [exact Hr|]. exact Hrun. }
  destruct Hfirst as (r1 & Hr1 & Hc1).
  assert (Hsecond :
            on_chunk (mkReader [] 1 [RawPacket 1 (PACKET_MARKER ++ part1); ParsedPacket 1 r1])
              part2
            = Returned (mkReader part2 1
                          [RawPacket 1 (PACKET_MARKER ++ part1); ParsedPacket 1 r1])).
  { unfold on_chunk. destruct part2 as [|c part2]; [reflexivity|].
    cbn [buffer app packet_count printed].
    now rewrite extract_loop_no_marker by exact H2. }
  assert (Hthird : exists r3,
            parse_tuya_packet (PACKET_MARKER ++ body3) = Returned r3
            /\ on_chunk (mkReader part2 1
                           [RawPacket 1 (PACKET_MARKER ++ part1); ParsedPacket 1 r1])
                 (PACKET_MARKER ++ body3)
               = Returned (mkReader [] 2
                     ([RawPacket 1 (PACKET_MARKER ++ part1); ParsedPacket 1 r1]
                        ++ orphan_event part2
                        ++ [RawPacket 2 (PACKET_MARKER ++ body3); ParsedPacket 2 r3]))).
  { destruct (@extract_known [] (length (part2 ++ PACKET_MARKER ++ body3))
                (mkReader (part2 ++ PACKET_MARKER ++ body3) 1
                   [RawPacket 1 (PACKET_MARKER ++ part1); ParsedPacket 1 r1])
                part2 body3 H2)
      as (results & Hres & Hrun).
    - now constructor.
    - cbn [buffer flat_map app]. now rewrite app_nil_r.
    - apply Nat.le_refl.
    - inversion Hres as [|b r bs rs Hr Hrs]; subst. inversion Hrs; subst.
      exists r. split; [exact Hr|]. exact Hrun. }
  destruct Hthird as (r3 & Hr3 & Hc3).
  exists r1, r3. split; [exact Hr1|]. split; [exact Hr3|].
  unfold read_and_hexdump_packets. cbn [read_loop].
  rewrite Hc1. cbn [bind]. rewrite Hsecond. cbn [bind].
  split; [reflexivity|]. rewrite Hc3. reflexivity.
Qed.

Lemma frame_split_across_reads_witness :
  exists r1 r3,
    parse_tuya_packet (PACKET_MARKER ++ [x03; x00; x07]) = Returned r1
    /\ parse_tuya_packet (PACKET_MARKER ++ [x00; x00; x00; x00; xff]) = Returned r3
    /\ read_and_hexdump_packets [PACKET_MARKER ++ [x03; x00; x07]; [x00; x0c]]
       = Returned (mkReader [x00; x0c] 1
                     [RawPacket 1 (PACKET_MARKER ++ [x03; x00; x07]); ParsedPacket 1 r1])
    /\ read_and_hexdump_packets
         [PACKET_MARKER ++ [x03; x00; x07]; [x00; x0c];
          PACKET_MARKER ++ [x00; x00; x00; x00; xff]]
       = Returned (mkReader [] 2
                     ([RawPacket 1 (PACKET_MARKER ++ [x03; x00; x07]); ParsedPacket 1 r1]
                        ++ orphan_event [x00; x0c]
                        ++ [RawPacket 2 (PACKET_MARKER ++ [x00; x00; x00; x00; xff]);
                            ParsedPacket 2 r3])).
Proof.
  apply (@frame_split_across_reads [x03; x00; x07] [x00; x0c] [x00; x00; x00; x00; xff]);
    reflexivity.
Defined.
